(** * AstroMind project workspace: the synchronisation logic of the front end

    A shallow embedding of three React components of the front end
    ([Editor], [DAGView] and the project page that hosts them) and the
    properties of their state handling.

    - [Js]          the few JavaScript notions the code relies on: truthiness,
                    JSON values, property access, [Array.prototype.slice],
                    insertion-ordered [Map]s, exceptions;
    - [DAGView]     the grouping of pipeline steps into cohorts;
    - [ProjectPage] the page state, its callbacks, the WebSocket handler and
                    the settlement of in-flight requests, as one transition
                    function over explicit inputs;
    - [Scenarios]   concrete steps, responses and executions.

    The facts follow the definitions.

    ** How the page is modelled

    JavaScript runs one task at a time.  A [World] holds the [useState]
    cells of the page, the ref, the buffer of [Editor], the closure of the
    WebSocket that the effect holds, the requests that were sent and have
    not settled, and what the page put out (sounds, alerts, errors).  A
    connection that the network drops is no input: the page has no
    handler for it and holds the dead socket as before.  An [Input] is a task:
    a user action, a frame on the socket, or the settling of a request.
    [step] runs the handler of the input and then commits: React renders
    again and runs the effects whose dependencies changed, before the next
    task starts.

    An async function is cut at its [await fetch(...)]: the part before it
    is the handler, which leaves a [Request] in flight together with what
    the rest of the function closed over; the part after it is the
    [continuation], run when the request settles.  Requests settle in any
    order.  Reading the body of a response ([response.json()],
    [response.text()]) is folded into the continuation, which reads no
    state in between.

    The page trusts its TypeScript types: a JSON body is taken at the type
    the code casts it to.  The stream handler is modelled on untyped JSON
    values, as it inspects them. *)

From Stdlib Require Import String Ascii List ZArith Bool Arith Lia Permutation.
From Stdlib Require Import DecimalString.
From Stdlib Require Import Floats.PrimFloat.
Import ListNotations.
Open Scope string_scope.
Open Scope list_scope.

Set Implicit Arguments.

(* ================================================================== *)
(** * JavaScript notions                                               *)
(* ================================================================== *)

Module Js.

(** ** Truthiness of strings and of [string | null | undefined] *)

Definition truthy_string (s : string) : bool := negb (s =? "").

(** [None] stands for [null] and for [undefined]: the code never tells
    them apart. *)
Definition truthy (o : option string) : bool :=
  match o with
  | Some s => truthy_string s
  | None => false
  end.

(** [a || b] on strings, with [a] possibly null or undefined. *)
Definition or_else (a : option string) (b : string) : string :=
  match a with
  | Some s => if truthy_string s then s else b
  | None => b
  end.

(** [Object.is] on [string | null]: what React compares a new state or a
    dependency with. *)
Definition same (a b : option string) : bool :=
  match a, b with
  | Some x, Some y => x =? y
  | None, None => true
  | _, _ => false
  end.

(** ** Exceptions *)

Inductive Error : Type :=
| SyntaxError            (* JSON.parse on a text that is not JSON *)
| TypeError              (* a property read on null, a failed fetch *)
| ErrorMessage (message : string).   (* new Error(message) *)

Inductive Exn (A : Type) : Type :=
| Return (a : A)
| Throw (e : Error).
Arguments Return {A} a.
Arguments Throw {A} e.

(** ** JSON values, as [JSON.parse] returns them *)

#[warnings="-register-all"]
Inductive json : Type :=
| JNull
| JBool (b : bool)
| JNum (d : float)                        (* an IEEE 754 double *)
| JStr (s : string)
| JArr (items : list json)
| JObj (fields : list (string * json)).   (* members in source order *)

(** A frame of the stream is a text; [JSON.parse] either returns the value
    it denotes or throws a [SyntaxError].  A frame is represented by that
    outcome: the raw text when it is not JSON, the value otherwise. *)
Inductive payload : Type :=
| NotJson (raw : string)
| Json (value : json).

Definition JSON_parse (data : payload) : Exn json :=
  match data with
  | NotJson _ => Throw SyntaxError
  | Json v => Return v
  end.

(** The last member named [key] wins, as in [JSON.parse]. *)
Fixpoint member (key : string) (fields : list (string * json)) : option json :=
  match fields with
  | [] => None
  | (k, v) :: rest =>
      match member key rest with
      | Some later => Some later
      | None => if k =? key then Some v else None
      end
  end.

(** [value.key] for a key that no prototype defines ([type],
    [artifact_path]): [None] is [undefined]; reading a property of [null]
    throws. *)
Definition prop (value : json) (key : string) : Exn (option json) :=
  match value with
  | JNull => Throw TypeError
  | JObj fields => Return (member key fields)
  | JBool _ | JNum _ | JStr _ | JArr _ => Return None
  end.

(** Truthiness of a property that was read. *)
Definition truthy_value (v : option json) : bool :=
  match v with
  | None => false
  | Some JNull => false
  | Some (JBool b) => b
  | Some (JNum d) => negb (PrimFloat.eqb d 0%float) && PrimFloat.eqb d d
  | Some (JStr s) => truthy_string s
  | Some (JArr _) => true
  | Some (JObj _) => true
  end.

(** [v === s] for a string [s]. *)
Definition strict_eq_string (v : option json) (s : string) : bool :=
  match v with
  | Some (JStr t) => t =? s
  | _ => false
  end.

(** ** Arrays *)

(** [arr.slice(-k)]: the last [k] elements, all of them when there are
    fewer. *)
Definition slice_last {A} (k : nat) (arr : list A) : list A :=
  skipn (length arr - k) arr.

(** ** Insertion-ordered maps with string keys ([Map<string, V>]) *)

Section JsMap.
Variable V : Type.

Definition JsMap := list (string * V).

Fixpoint has (key : string) (m : JsMap) : bool :=
  match m with
  | [] => false
  | (k, _) :: rest => (k =? key) || has key rest
  end.

Fixpoint get (key : string) (m : JsMap) : option V :=
  match m with
  | [] => None
  | (k, v) :: rest => if k =? key then Some v else get key rest
  end.

(** [set] keeps the position of a key that is present and appends a new
    one. *)
Fixpoint set (key : string) (v : V) (m : JsMap) : JsMap :=
  match m with
  | [] => [(key, v)]
  | (k, v0) :: rest =>
      if k =? key then (k, v) :: rest else (k, v0) :: set key v rest
  end.

Definition keys (m : JsMap) : list string := map fst m.
Definition values (m : JsMap) : list V := map snd m.

(** The map with the keys [ks] in that order, each bound to [f] of it. *)
Definition tabulate (f : string -> V) (ks : list string) : JsMap :=
  map (fun k => (k, f k)) ks.
End JsMap.

End Js.

(* ================================================================== *)
(** * DAGView: pipeline steps and their cohorts                        *)
(* ================================================================== *)

Module DAGView.
Import Js.

(** [parallel_group?: string | null]: [None] is absent or null. *)
Record Step : Type := {
  id : string;
  name : string;
  agent : string;
  status : string;
  parallel_group : option string
}.

(** [step.parallel_group || step.id] *)
Definition group_of (step : Step) : string :=
  or_else (parallel_group step) (id step).

(** The body of [steps.forEach]: create the group when it is new, then
    push the step on the array the map holds for it. *)
Definition add_step (groups : JsMap (list Step)) (step : Step)
  : JsMap (list Step) :=
  let group := group_of step in
  let groups := if has group groups then groups else set group [] groups in
  match get group groups with
  | Some members => set group (members ++ [step]) groups
  | None => groups
  end.

(** [groups] after the loop, in the map's iteration order. *)
Definition group_steps (steps : list Step) : JsMap (list Step) :=
  fold_left add_step steps [].

(** [Array.from(groups.values())] *)
Definition groupsArray (steps : list Step) : list (list Step) :=
  values (group_steps steps).

(** The node ids in the order the nodes are pushed: the CEO node, then the
    groups in iteration order, each in its own order. *)
Definition node_ids (steps : list Step) : list string :=
  "ceo-node" :: map id (concat (groupsArray steps)).

(** The edges as (source, target): the CEO to every step of the first
    group, then every step of a group to every step of the next. *)
Definition all_pairs (from to : list Step) : list (string * string) :=
  flat_map (fun a => map (fun b => (id a, id b)) to) from.

Fixpoint chain (groups : list (list Step)) : list (string * string) :=
  match groups with
  | current :: ((next :: _) as rest) => all_pairs current next ++ chain rest
  | _ => []
  end.

Definition edges (steps : list Step) : list (string * string) :=
  let groupsArray := groupsArray steps in
  match groupsArray with
  | first :: _ => map (fun step => ("ceo-node", id step)) first
  | [] => []
  end ++ chain groupsArray.

(** ** The cohorts in the words of the specification *)

(** The distinct keys of a list, each at its first appearance. *)
Fixpoint first_appearances (l : list string) : list string :=
  match l with
  | [] => []
  | k :: rest => k :: filter (fun k' => negb (k' =? k)) (first_appearances rest)
  end.

(** The steps whose key is [k], in the order of the step list. *)
Definition members_of (key : Step -> string) (steps : list Step) (k : string)
  : list Step :=
  filter (fun step => key step =? k) steps.

(** One cohort per distinct key, cohorts ordered by the first appearance
    of their key. *)
Definition cohorts (key : Step -> string) (steps : list Step)
  : list (string * list Step) :=
  map (fun k => (k, members_of key steps k))
      (first_appearances (map key steps)).

(** The key as the specification words it: the [parallel_group] when there
    is one, the step's own id when it is absent. *)
Definition stated_key (step : Step) : string :=
  match parallel_group step with
  | Some g => g
  | None => id step
  end.

End DAGView.

(* ================================================================== *)
(** * The project page                                                 *)
(* ================================================================== *)

Module ProjectPage.
Import Js.

(** ** Data *)

(** Modelled from the spec: the [FileEntry] type of [components/FileTree],
    which is not among the sources; the specification gives it a [path] and
    a [kind] (file or directory) and no content. *)
Inductive EntryKind : Type := file | dir.

Record FileEntry : Type := {
  path : string;
  kind : EntryKind
}.

(** A chat message, as [handleFix] builds one: [{ role, content }]. *)
Record Message : Type := {
  role : string;
  content : string
}.

Inductive Tab : Type := editor | dag.

Definition Tab_same (a b : Tab) : bool :=
  match a, b with
  | editor, editor | dag, dag => true
  | _, _ => false
  end.

(** The [useState] cells of the page. *)
Record State : Type := {
  files : list FileEntry;
  selectedFile : option string;
  fileContent : string;
  version : Z;
  logs : list json;
  steps : list DAGView.Step;
  status : string;
  activeTab : Tab
}.

(** ** The network *)

(** Who awaits a chat request: the chat panel, or [handleFix]. *)
Inductive Caller : Type := byChatPanel | byHandleFix.

(** A request that was sent and has not settled.  Each carries what its
    continuation captured when it was sent. *)
Inductive Request : Type :=
| GET_files (projectId : string)
| GET_status (projectId : string)
| GET_file (projectId : string) (path : string) (version : Z)
| POST_file (projectId : string) (path : string) (content : string)
| POST_chat (projectId : string) (message : string)
            (history : list Message) (caller : Caller)
| POST_review (projectId : string) (paths : list string).

(** What [response.json()] yields for a body of the expected shape. *)
Inductive Data : Type :=
| Listing (entries : list FileEntry)
| ProjectStatus (steps : list DAGView.Step) (status : string)
| ChatAnswer (response : string)
| Verdict (approved : bool) (comments : list string).

(** An HTTP response: [ok] is [response.ok], [text] is [response.text()],
    [body] is [response.json()], which rejects ([None]) on a body that is
    not JSON.  The page's types are trusted: a body of another shape than
    the one a continuation expects is treated like one that does not
    parse. *)
Record Response : Type := {
  ok : bool;
  text : string;
  body : option Data
}.

(** How the promise of [fetch] settles: it rejects when no response
    arrives, and resolves with the response otherwise, whatever its
    status. *)
Inductive Settlement : Type :=
| Rejected
| Resolved (response : Response).

(** ** What the page does to its surroundings *)

(** [utils/sound] is not among the sources: its calls are recorded and
    taken to return normally. *)
Inductive Sound : Type := playClick | playSuccess | playHover.

Inductive Output : Type :=
| Played (sound : Sound)
| AlertApproved                     (* alert: code approved *)
| AlertComments (comments : string) (* alert: the review comments *)
| ConsoleError (e : Error)
| ChatReply (result : Exn string)   (* what [handleChat] hands to the panel *)
| Uncaught (e : Error).             (* an exception or rejection nobody caught *)

(** ** The whole of it *)

(** The closure of the [onmessage] of the WebSocket that the effect
    holds, that is, created and not closed in its cleanup: the
    [projectId] and the [version] of the render that created it.  Whether
    the connection behind it is alive is the network's matter: the page
    sets no [onclose] and no [onerror] and never connects again, so a
    socket that was dropped stays held and silent. *)
Record Socket : Type := {
  ws_projectId : string;
  ws_version : Z
}.

Record World : Type := {
  projectId : option string;        (* router.query.id *)
  state : State;
  selectedFileRef : option string;  (* selectedFileRef.current *)
  value : option string;            (* Editor's buffer; None: not mounted *)
  ws : option Socket;
  inflight : list Request;
  outbox : list Output
}.

(** ** State setters *)

Definition setFiles (v : list FileEntry) (s : State) : State :=
  {| files := v; selectedFile := selectedFile s;
     fileContent := fileContent s; version := version s; logs := logs s;
     steps := steps s; status := status s; activeTab := activeTab s |}.

Definition setSelectedFile (v : option string) (s : State) : State :=
  {| files := files s; selectedFile := v;
     fileContent := fileContent s; version := version s; logs := logs s;
     steps := steps s; status := status s; activeTab := activeTab s |}.

Definition setFileContent (v : string) (s : State) : State :=
  {| files := files s; selectedFile := selectedFile s;
     fileContent := v; version := version s; logs := logs s;
     steps := steps s; status := status s; activeTab := activeTab s |}.

Definition setVersion (v : Z) (s : State) : State :=
  {| files := files s; selectedFile := selectedFile s;
     fileContent := fileContent s; version := v; logs := logs s;
     steps := steps s; status := status s; activeTab := activeTab s |}.

(** [setLogs] is only called with an updater function. *)
Definition setLogs (f : list json -> list json) (s : State) : State :=
  {| files := files s; selectedFile := selectedFile s;
     fileContent := fileContent s; version := version s; logs := f (logs s);
     steps := steps s; status := status s; activeTab := activeTab s |}.

Definition setSteps (v : list DAGView.Step) (s : State) : State :=
  {| files := files s; selectedFile := selectedFile s;
     fileContent := fileContent s; version := version s; logs := logs s;
     steps := v; status := status s; activeTab := activeTab s |}.

Definition setStatus (v : string) (s : State) : State :=
  {| files := files s; selectedFile := selectedFile s;
     fileContent := fileContent s; version := version s; logs := logs s;
     steps := steps s; status := v; activeTab := activeTab s |}.

Definition setActiveTab (v : Tab) (s : State) : State :=
  {| files := files s; selectedFile := selectedFile s;
     fileContent := fileContent s; version := version s; logs := logs s;
     steps := steps s; status := status s; activeTab := v |}.

Definition update (f : State -> State) (w : World) : World :=
  {| projectId := projectId w; state := f (state w);
     selectedFileRef := selectedFileRef w; value := value w; ws := ws w;
     inflight := inflight w; outbox := outbox w |}.

Definition route (id : option string) (w : World) : World :=
  {| projectId := id; state := state w;
     selectedFileRef := selectedFileRef w; value := value w; ws := ws w;
     inflight := inflight w; outbox := outbox w |}.

Definition setRef (v : option string) (w : World) : World :=
  {| projectId := projectId w; state := state w;
     selectedFileRef := v; value := value w; ws := ws w;
     inflight := inflight w; outbox := outbox w |}.

Definition setValue (v : option string) (w : World) : World :=
  {| projectId := projectId w; state := state w;
     selectedFileRef := selectedFileRef w; value := v; ws := ws w;
     inflight := inflight w; outbox := outbox w |}.

Definition setSocket (v : option Socket) (w : World) : World :=
  {| projectId := projectId w; state := state w;
     selectedFileRef := selectedFileRef w; value := value w; ws := v;
     inflight := inflight w; outbox := outbox w |}.

(** [fetch(...)]: one more request in flight. *)
Definition send (r : Request) (w : World) : World :=
  {| projectId := projectId w; state := state w;
     selectedFileRef := selectedFileRef w; value := value w; ws := ws w;
     inflight := inflight w ++ [r]; outbox := outbox w |}.

(** The request at position [n] has settled. *)
Fixpoint remove_nth {A} (n : nat) (l : list A) : list A :=
  match n, l with
  | _, [] => []
  | O, _ :: rest => rest
  | S m, a :: rest => a :: remove_nth m rest
  end.

Definition settled (n : nat) (w : World) : World :=
  {| projectId := projectId w; state := state w;
     selectedFileRef := selectedFileRef w; value := value w; ws := ws w;
     inflight := remove_nth n (inflight w); outbox := outbox w |}.

Definition emit (o : Output) (w : World) : World :=
  {| projectId := projectId w; state := state w;
     selectedFileRef := selectedFileRef w; value := value w; ws := ws w;
     inflight := inflight w; outbox := outbox w ++ [o] |}.

(** ** Code that may throw *)

(** A piece of code runs from a world and either completes or throws;
    what it did before throwing stays done. *)
Inductive Result (A : Type) : Type :=
| Normal (a : A) (w : World)
| Abrupt (e : Error) (w : World).
Arguments Normal {A} a w.
Arguments Abrupt {A} e w.

Definition Action (A : Type) : Type := World -> Result A.

Definition ret {A} (a : A) : Action A := fun w => Normal a w.

Definition throw {A} (e : Error) : Action A := fun w => Abrupt e w.

Definition bind {A B} (m : Action A) (k : A -> Action B) : Action B :=
  fun w =>
    match m w with
    | Normal a w' => k a w'
    | Abrupt e w' => Abrupt e w'
    end.

Definition lift {A} (m : Exn A) : Action A :=
  fun w =>
    match m with
    | Return a => Normal a w
    | Throw e => Abrupt e w
    end.

Definition perform (f : World -> World) : Action unit :=
  fun w => Normal tt (f w).

Definition read {A} (f : World -> A) : Action A :=
  fun w => Normal (f w) w.

(** [try { body } catch (e) { handler }] *)
Definition try_catch {A} (body : Action A) (handler : Error -> Action A)
  : Action A :=
  fun w =>
    match body w with
    | Normal a w' => Normal a w'
    | Abrupt e w' => handler e w'
    end.

(** An exception that reaches the top of an event handler or of an async
    function nobody awaits is reported and changes nothing else. *)
Definition top_level (m : Action unit) (w : World) : World :=
  match m w with
  | Normal _ w' => w'
  | Abrupt e w' => emit (Uncaught e) w'
  end.

Declare Scope action_scope.
Delimit Scope action_scope with action.
Notation "x <- m ;; k" := (bind m (fun x => k))
  (at level 61, m at next level, right associativity) : action_scope.
Notation "m ;; k" := (bind m (fun _ => k))
  (at level 61, right associativity) : action_scope.
Open Scope action_scope.

(** ** The callbacks of a render *)

(** Each takes the [projectId] (and [version]) its [useCallback] closed
    over.  What follows the [await] is in [continuation] below. *)

Definition fetchFiles (projectId : option string) (w : World) : World :=
  match projectId with
  | Some pid => if truthy_string pid then send (GET_files pid) w else w
  | None => w
  end.

Definition fetchStatus (projectId : option string) (w : World) : World :=
  match projectId with
  | Some pid => if truthy_string pid then send (GET_status pid) w else w
  | None => w
  end.

(** [versionOverride ?? version] *)
Definition fetchFileContent (projectId : option string) (version : Z)
    (path : string) (versionOverride : option Z) (w : World) : World :=
  match projectId with
  | Some pid =>
      if truthy_string pid then
        let versionToUse :=
          match versionOverride with Some v => v | None => version end in
        send (GET_file pid path versionToUse) w
      else w
  | None => w
  end.

(** ** Effects *)

(** The four [useEffect]s of the page, in the order of the source; each
    runs when one of its dependencies changed.  The callbacks change with
    what they close over: [fetchFiles] and [fetchStatus] with [projectId],
    [fetchFileContent] with [projectId] or [version]. *)
Definition effects (selectedFile_changed projectId_changed version_changed : bool)
    (w : World) : World :=
  let id := projectId w in
  let selected := selectedFile (state w) in
  let v := version (state w) in
  (* [selectedFile] *)
  let w := if selectedFile_changed then setRef selected w else w in
  (* [fetchFiles, fetchStatus] *)
  let w := if projectId_changed then fetchStatus id (fetchFiles id w) else w in
  (* [selectedFile, fetchFileContent, version] *)
  let w :=
    if selectedFile_changed || projectId_changed || version_changed then
      match selected with
      | Some path =>
          if truthy_string path then fetchFileContent id v path None w else w
      | None => w
      end
    else w in
  (* [projectId, fetchStatus, fetchFiles, fetchFileContent]: the cleanup
     closes the previous socket, then a new one is opened *)
  if projectId_changed || version_changed then
    match id with
    | Some pid =>
        if truthy_string pid
        then setSocket (Some {| ws_projectId := pid; ws_version := v |}) w
        else setSocket None w
    | None => setSocket None w
    end
  else w.

(** The effect of [Editor]: [setValue(content)] when [content] changed. *)
Definition Editor_effect (content_before : string) (w : World) : World :=
  match value w with
  | Some _ =>
      if content_before =? fileContent (state w) then w
      else setValue (Some (fileContent (state w))) w
  | None => w
  end.

(** After a handler ran from [before], React renders again and runs the
    effects whose dependencies differ from those of the previous render. *)
Definition commit (before w : World) : World :=
  let w := Editor_effect (fileContent (state before)) w in
  effects
    (negb (same (selectedFile (state before)) (selectedFile (state w))))
    (negb (same (projectId before) (projectId w)))
    (negb (version (state before) =? version (state w))%Z)
    w.

(** The first render, with [router.query.id] being [id], before any
    effect ran; the editor tab is shown, so [Editor] is mounted. *)
Definition initial (id : option string) : World :=
  {| projectId := id;
     state := {| files := []; selectedFile := None; fileContent := "";
                 version := 1; logs := []; steps := []; status := "";
                 activeTab := editor |};
     selectedFileRef := None;
     value := Some "";
     ws := None;
     inflight := [];
     outbox := [] |}.

(** On mount every effect runs. *)
Definition mount (id : option string) : World :=
  effects true true true (initial id).

(** ** The WebSocket handler *)

Definition onmessage (socket : Socket) (event_data : payload) : Action unit :=
  let projectId := Some (ws_projectId socket) in
  try_catch
    (data <- lift (JSON_parse event_data) ;;
     type <- lift (prop data "type") ;;
     if strict_eq_string type "event" then
       perform (update (setLogs (fun prev => slice_last 199 prev ++ [data]))) ;;
       perform (fetchStatus projectId) ;;
       artifact_path <- lift (prop data "artifact_path") ;;
       if truthy_value artifact_path then
         perform (fetchFiles projectId) ;;
         perform (emit (Played playSuccess)) ;;
         current <- read selectedFileRef ;;
         match current with
         | Some selected =>
             if truthy_string selected
                && strict_eq_string artifact_path selected
             then perform (fetchFileContent projectId (ws_version socket)
                             selected None)
             else ret tt
         | None => ret tt
         end
       else ret tt
     else ret tt)
    (fun _ => ret tt).
(** ** The handlers of user actions *)

(** [handleSave], up to its first [await]. *)
Definition handleSave (content : string) (w : World) : World :=
  match projectId w, selectedFile (state w) with
  | Some pid, Some path =>
      if truthy_string pid && truthy_string path
      then send (POST_file pid path content) (emit (Played playClick) w)
      else w
  | _, _ => w
  end.

(** What the caller of [handleChat] does with the promise it got: the chat
    panel receives the answer or the error; [handleFix] plays a sound on an
    answer and logs an error. *)
Definition after_chat (caller : Caller) (result : Action string)
  : Action unit :=
  match caller with
  | byChatPanel =>
      fun w =>
        match result w with
        | Normal answer w' => Normal tt (emit (ChatReply (Return answer)) w')
        | Abrupt e w' => Normal tt (emit (ChatReply (Throw e)) w')
        end
  | byHandleFix =>
      try_catch
        (_ <- result ;; perform (emit (Played playSuccess)))
        (fun e => perform (emit (ConsoleError e)))
  end.

(** [handleChat], up to its first [await]; without a project it returns at
    once. *)
Definition handleChat (caller : Caller) (message : string)
    (history : list Message) (w : World) : World :=
  let no_project :=
    top_level (after_chat caller (ret "Error: No project ID")) w in
  match projectId w with
  | Some pid =>
      if truthy_string pid
      then send (POST_chat pid message history caller) w
      else no_project
  | None => no_project
  end.

Definition newline : string := String "010"%char "".

Definition fix_prompt (selectedFile fileContent : string) : string :=
  "I am having trouble with this file: " ++ selectedFile ++ "."
  ++ newline ++ newline ++ "Content:" ++ newline ++ fileContent
  ++ newline ++ newline
  ++ "Please analyze it for errors (syntax, logic, or best practices) and fix them. Return the corrected file content.".

Definition handleFix (w : World) : World :=
  match selectedFile (state w) with
  | Some path =>
      if truthy_string path && truthy_string (fileContent (state w)) then
        let prompt := fix_prompt path (fileContent (state w)) in
        let w := emit (Played playClick) w in
        handleChat byHandleFix prompt
          [ {| role := "user"; content := prompt |} ] w
      else w
  | None => w
  end.

(** [handleDeepReview], up to its first [await]. *)
Definition handleDeepReview (w : World) : World :=
  match projectId w, selectedFile (state w) with
  | Some pid, Some path =>
      if truthy_string pid && truthy_string path
      then send (POST_review pid [path]) (emit (Played playClick) w)
      else w
  | _, _ => w
  end.

(** ** After the [await] *)

(** [await fetch(...)] *)
Definition await (s : Settlement) : Action Response :=
  match s with
  | Rejected => throw TypeError
  | Resolved response => ret response
  end.

(** [await response.json()], at each of the shapes the page expects. *)
Definition json_listing (r : Response) : Action (list FileEntry) :=
  match body r with
  | Some (Listing entries) => ret entries
  | _ => throw SyntaxError
  end.

Definition json_status (r : Response)
  : Action (list DAGView.Step * string) :=
  match body r with
  | Some (ProjectStatus steps status) => ret (steps, status)
  | _ => throw SyntaxError
  end.

Definition json_answer (r : Response) : Action string :=
  match body r with
  | Some (ChatAnswer response) => ret response
  | _ => throw SyntaxError
  end.

Definition json_verdict (r : Response) : Action (bool * list string) :=
  match body r with
  | Some (Verdict approved comments) => ret (approved, comments)
  | _ => throw SyntaxError
  end.

(** The rest of [handleChat]. *)
Definition handleChat_rest (projectId : string) (s : Settlement)
  : Action string :=
  response <- await s ;;
  if negb (ok response) then throw (ErrorMessage "Failed to send message")
  else
    answer <- json_answer response ;;
    perform (fetchFiles (Some projectId)) ;;
    ret answer.

(** What runs when a request settles: the rest of the async function that
    sent it, with the [try]/[catch] that surrounds it there. *)
Definition continuation (r : Request) (s : Settlement) : Action unit :=
  match r with
  | GET_files _ =>
      response <- await s ;;
      if ok response then
        entries <- json_listing response ;;
        perform (update (setFiles entries))
      else ret tt
  | GET_status _ =>
      response <- await s ;;
      if ok response then
        data <- json_status response ;;
        perform (update (setSteps (fst data))) ;;
        perform (update (setStatus (snd data)))
      else ret tt
  | GET_file _ _ _ =>
      response <- await s ;;
      if ok response then
        perform (update (setFileContent (text response)))
      else ret tt
  | POST_file projectId _ _ =>
      (* the response of the save is not looked at *)
      _ <- await s ;;
      perform (fetchFiles (Some projectId))
  | POST_chat projectId _ _ caller =>
      after_chat caller (handleChat_rest projectId s)
  | POST_review _ _ =>
      try_catch
        (response <- await s ;;
         if ok response then
           result <- json_verdict response ;;
           perform (emit (Played playSuccess)) ;;
           if fst result then perform (emit AlertApproved)
           else perform (emit (AlertComments
                                 (String.concat (newline ++ newline)
                                    (snd result))))
         else ret tt)
        (fun e => perform (emit (ConsoleError e)))
  end.

(** ** Inputs and steps *)

Inductive Input : Type :=
| RouteTo (id : option string)              (* router.query.id changes *)
| SelectFile (path : option string)         (* FileTree onSelect *)
| ChangeVersion (v : Z)                     (* FileTree onVersionChange *)
| Refresh                                   (* FileTree onRefresh *)
| SwitchTab (tab : Tab)                     (* the two tab buttons *)
| Edit (nextValue : option string)          (* MonacoEditor onChange *)
| ClickSave
| ClickFix
| ClickDeepReview
| SendChat (message : string) (history : list Message)
| Frame (data : payload)                    (* a frame on the live socket *)
| Settle (n : nat) (s : Settlement).        (* request number n settles *)

(** [Editor] is rendered in the editor tab; its toolbar and the text area
    only when a path is selected. *)
Definition toolbar_shown (w : World) : bool :=
  Tab_same (activeTab (state w)) editor && truthy (selectedFile (state w)).

(** What the handler of an input does, before React renders again.
    The flags [saving], [reviewing] and [showPreview] of [Editor] only
    disable a button or hide the text area: they are left out, so that the
    transitions below are a superset of those the page allows. *)
Definition handle (w : World) (i : Input) : World :=
  match i with
  | RouteTo id => route id w
  | SelectFile path =>
      emit (Played playHover) (update (setSelectedFile path) w)
  | ChangeVersion v => update (setVersion v) w
  | Refresh => fetchFiles (projectId w) w
  | SwitchTab tab =>
      let w' := emit (Played playHover) (update (setActiveTab tab) w) in
      match tab with
      | editor =>
          match value w with
          | Some _ => w'
          | None => setValue (Some (fileContent (state w))) w'
          end
      | dag => setValue None w'
      end
  | Edit nextValue =>
      if toolbar_shown w then setValue (Some (or_else nextValue "")) w else w
  | ClickSave =>
      if toolbar_shown w then
        match value w with
        | Some content => handleSave content w
        | None => w
        end
      else w
  | ClickFix => if toolbar_shown w then handleFix w else w
  | ClickDeepReview => if toolbar_shown w then handleDeepReview w else w
  | SendChat message history =>
      if Tab_same (activeTab (state w)) editor
      then handleChat byChatPanel message history w
      else w
  | Frame data =>
      match ws w with
      | Some socket => top_level (onmessage socket data) w
      | None => w
      end
  | Settle n s =>
      match nth_error (inflight w) n with
      | Some r => top_level (continuation r s) (settled n w)
      | None => w
      end
  end.

Definition step (w : World) (i : Input) : World := commit w (handle w i).

Definition run (w : World) (inputs : list Input) : World :=
  fold_left step inputs w.

(** The worlds the page can be in. *)
Definition reachable (w : World) : Prop :=
  exists id inputs, w = run (mount id) inputs.

(** What [Editor] shows: nothing but a hint when no path is selected,
    else the path and the buffer. *)
Definition Editor_shows (w : World) : option (string * string) :=
  match activeTab (state w), selectedFile (state w), value w with
  | editor, Some path, Some buffer =>
      if truthy_string path then Some (path, buffer) else None
  | _, _, _ => None
  end.

(** ** Vocabulary of the properties *)

(** An accepted stream event: a JSON object whose [type] is the string
    [event]. *)
Definition accepted (data : json) : Prop :=
  exists fields,
    data = JObj fields /\ member "type" fields = Some (JStr "event").

(** The updater that [onmessage] gives to [setLogs], at the event
    [data]. *)
Definition push_log (prev : list json) (data : json) : list json :=
  slice_last 199 prev ++ [data].

(** A frame carrying [data]. *)
Definition frame_of (data : json) : Input := Frame (Json data).

(** The read operations: listing, status and content fetch. *)
Definition is_read (r : Request) : bool :=
  match r with
  | GET_files _ | GET_status _ | GET_file _ _ _ => true
  | POST_file _ _ _ | POST_chat _ _ _ _ | POST_review _ _ => false
  end.

(** The write operations: save, chat and review. *)
Definition is_write (r : Request) : bool := negb (is_read r).

(** The errors nobody caught, among what the page put out. *)
Definition uncaught (out : list Output) : list Error :=
  flat_map (fun o => match o with Uncaught e => [e] | _ => [] end) out.

(** The dependencies of the effects and the [content] of [Editor] are
    those of the render before: then nothing runs on commit. *)
Definition quiet (before w : World) : Prop :=
  selectedFile (state w) = selectedFile (state before)
  /\ projectId w = projectId before
  /\ version (state w) = version (state before)
  /\ fileContent (state w) = fileContent (state before).

(** The ref holds the selection, and the socket, held exactly when there
    is a project, closes over the project and version of this render. *)
Definition coherent (w : World) : Prop :=
  selectedFileRef w = selectedFile (state w)
  /\ ws w = match projectId w with
            | Some pid =>
                if truthy_string pid
                then Some {| ws_projectId := pid;
                             ws_version := version (state w) |}
                else None
            | None => None
            end.

End ProjectPage.

(* ================================================================== *)
(** * Concrete steps, worlds and executions                            *)
(* ================================================================== *)

(** The examples the properties below are instantiated at. *)
Module Scenarios.
Import Js DAGView ProjectPage.

(** Two steps whose [parallel_group] is the empty string, and two steps of
    a group named [build] around a step without a group. *)
Definition lint : Step :=
  {| id := "lint"; name := "Lint"; agent := "dev"; DAGView.status := "done";
     parallel_group := Some "" |}.

Definition test : Step :=
  {| id := "test"; name := "Test"; agent := "qa"; DAGView.status := "pending";
     parallel_group := Some "" |}.

Definition api : Step :=
  {| id := "api"; name := "API"; agent := "dev"; DAGView.status := "running";
     parallel_group := Some "build" |}.

Definition plan : Step :=
  {| id := "plan"; name := "Plan"; agent := "ceo"; DAGView.status := "done";
     parallel_group := None |}.

Definition ui : Step :=
  {| id := "ui"; name := "UI"; agent := "dev"; DAGView.status := "pending";
     parallel_group := Some "build" |}.

Definition pipeline : list Step := [lint; api; plan; ui; test].

(** Responses. *)
Definition found (t : string) : Response :=
  {| ok := true; text := t; body := None |}.

Definition not_found : Response :=
  {| ok := false; text := "Not Found"; body := None |}.

Definition listing_of (entries : list FileEntry) : Response :=
  {| ok := true; text := ""; body := Some (Listing entries) |}.

(** The page of project [demo], just mounted; then with [a.py] selected;
    then with [b.py] selected while the content of [a.py] is still being
    fetched; and with the selection cleared instead. *)
Definition opened : World := mount (Some "demo").

Definition a_selected : World := run opened [SelectFile (Some "a.py")].

Definition b_selected : World :=
  run a_selected [SelectFile (Some "b.py"); Settle 3 (Resolved (found "text of b.py"))].

Definition deselected : World := run a_selected [SelectFile None].

(** Stream events: one that names an artifact, and numbered ones. *)
Definition artifact_fields (path : string) : list (string * json) :=
  [("type", JStr "event"); ("message", JStr "file written");
   ("artifact_path", JStr path)].

Definition artifact_event (path : string) : json :=
  JObj (artifact_fields path).

Definition numbered (n : nat) : json :=
  JObj [("type", JStr "event");
        ("message", JStr (NilEmpty.string_of_uint (Nat.to_uint n)))].

Definition burst (n : nat) : list json := map numbered (seq 0 n).

End Scenarios.

(* ================================================================== *)
(** * Paths and addresses                                              *)
(* ================================================================== *)

Module Paths.
Import Js.

(** [s.endsWith(suffix)]: some tail of [s] is [suffix].  The suffixes the
    code tests are ASCII, for which the bytes of a string end as its
    characters do. *)
Fixpoint endsWith (s suffix : string) : bool :=
  (s =? suffix)
  || match s with
     | EmptyString => false
     | String _ rest => endsWith rest suffix
     end.

(** The language the page hands to the editor. *)
Definition languageFromPath (path : string) : string :=
  if endsWith path ".py" then "python"
  else if endsWith path ".ts" || endsWith path ".tsx" then "typescript"
  else if endsWith path ".js" || endsWith path ".jsx" then "javascript"
  else if endsWith path ".json" then "json"
  else if endsWith path ".md" then "markdown"
  else "plaintext".

(** [isMarkdown] of [Editor]. *)
Definition isMarkdown (path : string) : bool := endsWith path ".md".

(** [s.replace(pattern, replacement)] for a string pattern: the first
    occurrence is replaced.  (The replacement the code passes holds no
    dollar sign, so it is taken literally.) *)
Fixpoint replace (pattern replacement s : string) : string :=
  if prefix pattern s then
    replacement
    ++ substring (String.length pattern)
         (String.length s - String.length pattern) s
  else
    match s with
    | EmptyString => EmptyString
    | String c rest => String c (replace pattern replacement rest)
    end.

(** [process.env.NEXT_PUBLIC_API_BASE_URL || "http://localhost:8000"] *)
Definition API_BASE (env : option string) : string :=
  or_else env "http://localhost:8000".

Definition WS_BASE (env : option string) : string :=
  replace "http" "ws" (API_BASE env).

(** The address of the socket of a project. *)
Definition socket_url (env : option string) (projectId : string) : string :=
  WS_BASE env ++ "/ws/projects/" ++ projectId.

End Paths.

(* ================================================================== *)
(** * DAGView: the layout of the nodes                                 *)
(* ================================================================== *)

Module Layout.
Import Js DAGView.
Local Open Scope Z_scope.

(** A node, as far as its place goes: the id, the position (of its top
    left corner) and the size its style gives it.  Coordinates are small
    integers, on which the arithmetic of JavaScript numbers is exact. *)
Record Node : Type := {
  node_id : string;
  x : Z;
  y : Z;
  width : Z;
  height : Z
}.

Definition centerX : Z := 250.
Definition startY : Z := 220.
Definition verticalGap : Z := 180.

Definition ceo_node : Node :=
  {| node_id := "ceo-node"; x := 250; y := 0; width := 160; height := 160 |}.

(** [groupSteps.forEach((step, idx) => result.push(...))], from [idx] on. *)
Fixpoint place_steps (startX currentY : Z) (idx : nat) (groupSteps : list Step)
  : list Node :=
  match groupSteps with
  | [] => []
  | step :: rest =>
      {| node_id := id step;
         x := startX + Z.of_nat idx * 200;
         y := currentY;
         width := 150;
         height := 120 |}
      :: place_steps startX currentY (S idx) rest
  end.

(** [groups.forEach(...)], with [currentY] as it stands before the group. *)
Fixpoint place_groups (currentY : Z) (groups : list (list Step)) : list Node :=
  match groups with
  | [] => []
  | groupSteps :: rest =>
      let groupWidth := Z.of_nat (length groupSteps) * 200 in
      let startX := centerX - groupWidth / 2 + 100 in
      place_steps startX currentY 0 groupSteps
      ++ place_groups (currentY + verticalGap) rest
  end.

Definition nodes (steps : list Step) : list Node :=
  ceo_node :: place_groups startY (groupsArray steps).

(** Two nodes overlap when their rectangles share a point of positive
    area. *)
Definition overlap (a b : Node) : Prop :=
  (x a < x b + width b /\ x b < x a + width a
   /\ y a < y b + height b /\ y b < y a + height a)%Z.

Definition apart (a b : Node) : Prop := ~ overlap a b.

(** The node of the step in column [j] of row [i], in a row of [n]. *)
Definition node_at (i j n : nat) (step : Step) : Node :=
  {| node_id := id step;
     x := 350 - 100 * Z.of_nat n + 200 * Z.of_nat j;
     y := 220 + 180 * Z.of_nat i;
     width := 150;
     height := 120 |}.

End Layout.

(* ================================================================== *)
(** * The Editor component                                             *)
(* ================================================================== *)

Module EditorComponent.
Import Js.

(** The props; [onSave] is always there, [onFix] and [onDeepReview] may
    be left out. *)
Record Props : Type := {
  path : option string;
  content : string;
  language : string;
  onFix : bool;
  onDeepReview : bool
}.

(** The [useState] cells of [Editor]. *)
Record EditorState : Type := {
  value : string;
  saving : bool;
  showPreview : bool;
  reviewing : bool
}.

(** An [Editor] that is mounted: its props, its state, the calls of
    [onSave] and [onDeepReview] it awaits, the calls of [onFix] it made
    and the rejections that left it uncaught. *)
Record Mounted : Type := {
  props : Props;
  cells : EditorState;
  saves_pending : list string;     (* the arguments of [onSave] *)
  reviews_pending : nat;
  fixes_called : nat;
  unhandled : nat
}.

Definition setValue (v : string) (s : EditorState) : EditorState :=
  {| value := v; saving := saving s; showPreview := showPreview s;
     reviewing := reviewing s |}.

Definition setSaving (v : bool) (s : EditorState) : EditorState :=
  {| value := value s; saving := v; showPreview := showPreview s;
     reviewing := reviewing s |}.

Definition setShowPreview (v : bool) (s : EditorState) : EditorState :=
  {| value := value s; saving := saving s; showPreview := v;
     reviewing := reviewing s |}.

Definition setReviewing (v : bool) (s : EditorState) : EditorState :=
  {| value := value s; saving := saving s; showPreview := showPreview s;
     reviewing := v |}.

Definition with_cells (f : EditorState -> EditorState) (m : Mounted)
  : Mounted :=
  {| props := props m; cells := f (cells m);
     saves_pending := saves_pending m; reviews_pending := reviews_pending m;
     fixes_called := fixes_called m; unhandled := unhandled m |}.

(** The first render: [useState(content)] and the flags down. *)
Definition mount (p : Props) : Mounted :=
  {| props := p;
     cells := {| value := content p; saving := false; showPreview := false;
                 reviewing := false |};
     saves_pending := []; reviews_pending := 0; fixes_called := 0;
     unhandled := 0 |}.

(** What is on the screen. *)
Inductive Body : Type :=
| Preview (markdown : string)                  (* ReactMarkdown *)
| TextArea (language : string) (text : string). (* MonacoEditor *)

Record Toolbar : Type := {
  shown_path : string;
  preview_toggle : bool;           (* the Edit and Preview buttons *)
  review_button : option bool;     (* there or not; Some true: disabled *)
  fix_button : bool;
  save_disabled : bool
}.

Inductive View : Type :=
| Placeholder                      (* Select a file to view its contents. *)
| Panel (toolbar : Toolbar) (body : Body).

Definition render (m : Mounted) : View :=
  match path (props m) with
  | Some p =>
      if truthy_string p then
        let isMarkdown := Paths.isMarkdown p in
        Panel
          {| shown_path := p;
             preview_toggle := isMarkdown;
             review_button :=
               if onDeepReview (props m) then Some (reviewing (cells m))
               else None;
             fix_button := onFix (props m);
             save_disabled := saving (cells m) |}
          (if isMarkdown && showPreview (cells m)
           then Preview (value (cells m))
           else TextArea (language (props m)) (value (cells m)))
      else Placeholder
  | None => Placeholder
  end.

(** How an awaited call ends. *)
Inductive Ending : Type := fulfilled | rejected.

Inductive Event : Type :=
| Render (p : Props)                 (* the parent renders with props p *)
| Change (nextValue : option string) (* MonacoEditor onChange *)
| TogglePreview (on : bool)          (* the buttons Edit and Preview *)
| ClickSave
| ClickFix
| ClickDeepReview
| SaveEnds (e : Ending)              (* the pending [onSave] settles *)
| ReviewEnds (e : Ending).           (* a pending [onDeepReview] settles *)

(** Which controls are on the screen and enabled. *)
Definition save_enabled (m : Mounted) : bool :=
  match render m with
  | Panel toolbar _ => negb (save_disabled toolbar)
  | Placeholder => false
  end.

Definition review_enabled (m : Mounted) : bool :=
  match render m with
  | Panel toolbar _ =>
      match review_button toolbar with
      | Some disabled => negb disabled
      | None => false
      end
  | Placeholder => false
  end.

Definition fix_enabled (m : Mounted) : bool :=
  match render m with
  | Panel toolbar _ => fix_button toolbar
  | Placeholder => false
  end.

Definition textarea_shown (m : Mounted) : bool :=
  match render m with
  | Panel _ (TextArea _ _) => true
  | _ => false
  end.

Definition toggle_shown (m : Mounted) : bool :=
  match render m with
  | Panel toolbar _ => preview_toggle toolbar
  | Placeholder => false
  end.

Definition after_ending (e : Ending) (n : nat) : nat :=
  match e with
  | fulfilled => n
  | rejected => S n
  end.

Definition step (m : Mounted) (ev : Event) : Mounted :=
  match ev with
  | Render p =>
      (* the effect on [content]: [setValue(content)] when it changed *)
      {| props := p;
         cells := if content (props m) =? content p then cells m
                  else setValue (content p) (cells m);
         saves_pending := saves_pending m;
         reviews_pending := reviews_pending m;
         fixes_called := fixes_called m;
         unhandled := unhandled m |}
  | Change nextValue =>
      if textarea_shown m
      then with_cells (setValue (or_else nextValue "")) m
      else m
  | TogglePreview on =>
      if toggle_shown m then with_cells (setShowPreview on) m else m
  | ClickSave =>
      (* [setSaving(true)]; [await onSave(value)] *)
      if save_enabled m then
        {| props := props m;
           cells := setSaving true (cells m);
           saves_pending := saves_pending m ++ [value (cells m)];
           reviews_pending := reviews_pending m;
           fixes_called := fixes_called m;
           unhandled := unhandled m |}
      else m
  | ClickFix =>
      if fix_enabled m then
        {| props := props m; cells := cells m;
           saves_pending := saves_pending m;
           reviews_pending := reviews_pending m;
           fixes_called := S (fixes_called m);
           unhandled := unhandled m |}
      else m
  | ClickDeepReview =>
      (* [setReviewing(true)]; [await onDeepReview()] *)
      if review_enabled m then
        {| props := props m;
           cells := setReviewing true (cells m);
           saves_pending := saves_pending m;
           reviews_pending := S (reviews_pending m);
           fixes_called := fixes_called m;
           unhandled := unhandled m |}
      else m
  | SaveEnds e =>
      (* [finally { setSaving(false) }]; a rejection goes on, uncaught *)
      match saves_pending m with
      | [] => m
      | _ :: rest =>
          {| props := props m;
             cells := setSaving false (cells m);
             saves_pending := rest;
             reviews_pending := reviews_pending m;
             fixes_called := fixes_called m;
             unhandled := after_ending e (unhandled m) |}
      end
  | ReviewEnds e =>
      match reviews_pending m with
      | O => m
      | S rest =>
          {| props := props m;
             cells := setReviewing false (cells m);
             saves_pending := saves_pending m;
             reviews_pending := rest;
             fixes_called := fixes_called m;
             unhandled := after_ending e (unhandled m) |}
      end
  end.

Definition run (m : Mounted) (events : list Event) : Mounted :=
  fold_left step events m.

(** The props the page passes: the language is that of the path. *)
Definition page_props (selectedFile : option string) (fileContent : string)
  : Props :=
  {| path := selectedFile;
     content := fileContent;
     language :=
       match selectedFile with
       | Some p =>
           if truthy_string p then Paths.languageFromPath p else "plaintext"
       | None => "plaintext"
       end;
     onFix := true;
     onDeepReview := true |}.

(** The flags say what is awaited: [saving] is up exactly while one call
    of [onSave] is pending, [reviewing] exactly while one call of
    [onDeepReview] is. *)
Definition flags_match (m : Mounted) : Prop :=
  length (saves_pending m) = (if saving (cells m) then 1 else 0)
  /\ reviews_pending m = (if reviewing (cells m) then 1 else 0).

End EditorComponent.

(* ================================================================== *)
(** * More notions and examples for the page                           *)
(* ================================================================== *)

Module PageNotions.
Import Js ProjectPage.

(** The project a request was sent for. *)
Definition request_project (r : Request) : string :=
  match r with
  | GET_files projectId => projectId
  | GET_status projectId => projectId
  | GET_file projectId _ _ => projectId
  | POST_file projectId _ _ => projectId
  | POST_chat projectId _ _ _ => projectId
  | POST_review projectId _ => projectId
  end.

Definition has_project (r : Request) : Prop :=
  truthy_string (request_project r) = true.

(** Inputs that neither change the route nor settle a request. *)
Definition is_local (i : Input) : bool :=
  match i with
  | RouteTo _ | Settle _ _ => false
  | _ => true
  end.

(** The message [handleFix] sends for a path and its loaded content. *)
Definition fix_request (pid path fileContent : string) : Request :=
  POST_chat pid (fix_prompt path fileContent)
    [ {| role := "user"; content := fix_prompt path fileContent |} ]
    byHandleFix.

(** What the caller of [handleChat] does with an answer. *)
Definition answer_for (caller : Caller) (answer : string) : Output :=
  match caller with
  | byChatPanel => ChatReply (Return answer)
  | byHandleFix => Played playSuccess
  end.

(** The page of [demo] with [b.py] shown, after a click on Save, on Fix
    and on Deep Review: a save, a chat and a review are in flight behind
    the listing, the status and the content of [a.py]. *)
Definition busy : World :=
  run Scenarios.b_selected [ClickSave; ClickFix; ClickDeepReview].

(** A page that has lost its project while [b.py] is shown. *)
Definition orphaned : World := run Scenarios.b_selected [RouteTo None].

(** The same page after the user typed. *)
Definition typed : World :=
  step Scenarios.b_selected (Edit (Some "typed since")).

(** The same page after a second refresh of the listing was asked for. *)
Definition refreshing : World := step Scenarios.b_selected Refresh.

(** A chat response with an answer. *)
Definition answered : Response :=
  {| ok := true; text := ""; body := Some (ChatAnswer "fixed") |}.

(** An editor on a markdown file with the preview on. *)
Definition previewing : EditorComponent.Mounted :=
  EditorComponent.run
    (EditorComponent.mount
       (EditorComponent.page_props (Some "README.md") "# AstroMind"))
    [EditorComponent.TogglePreview true].

End PageNotions.

(* ================================================================== *)
(** * Facts about the JavaScript notions                               *)
(* ================================================================== *)

Unset Implicit Arguments.

Section JsFacts.
Import Js.

Lemma same_spec (a b : option string) : reflect (a = b) (same a b).
Proof.
  destruct a as [x|], b as [y|]; simpl; try (constructor; congruence).
  destruct (String.eqb_spec x y); constructor; congruence.
Qed.

Lemma same_refl (a : option string) : same a a = true.
Proof. destruct a as [x|]; simpl; [apply String.eqb_refl | reflexivity]. Qed.

Lemma truthy_string_nonempty (s : string) :
  truthy_string s = true <-> s <> "".
Proof.
  unfold truthy_string.
  destruct (String.eqb_spec s ""); simpl; split; congruence.
Qed.

(** Pushing on the last [k] elements gives the last [k + 1] elements of
    the longer array. *)
Lemma slice_last_push {A} (k : nat) (arr : list A) (x : A) :
  slice_last k arr ++ [x] = slice_last (S k) (arr ++ [x]).
Proof.
  unfold slice_last.
  rewrite length_app, skipn_app. simpl length.
  replace (length arr + 1 - S k) with (length arr - k) by lia.
  replace (length arr - k - length arr) with 0 by lia.
  reflexivity.
Qed.

Lemma slice_last_all {A} (k : nat) (arr : list A) :
  length arr <= k -> slice_last k arr = arr.
Proof.
  intros H. unfold slice_last.
  replace (length arr - k) with 0 by lia. reflexivity.
Qed.

Lemma slice_last_length {A} (k : nat) (arr : list A) :
  length (slice_last k arr) = Nat.min k (length arr).
Proof. unfold slice_last. rewrite length_skipn. lia. Qed.

(** *** Maps that hold one entry per key of a duplicate-free list *)

Section Tabulated.
Variable V : Type.
Variable f : string -> V.

Lemma has_tabulate (k : string) (ks : list string) :
  has k (tabulate f ks) = existsb (fun k' => k' =? k) ks.
Proof.
  induction ks as [|k0 ks IH]; simpl; [reflexivity|].
  now rewrite IH.
Qed.

Lemma get_tabulate_in (k : string) (ks : list string) :
  In k ks -> get k (tabulate f ks) = Some (f k).
Proof.
  induction ks as [|k0 ks IH]; simpl; [tauto|].
  intros H. destruct (String.eqb_spec k0 k) as [->|Hne]; [reflexivity|].
  destruct H as [H|H]; [congruence | auto].
Qed.

Lemma set_tabulate_absent (k : string) (v : V) (ks : list string) :
  ~ In k ks -> set k v (tabulate f ks) = tabulate f ks ++ [(k, v)].
Proof.
  induction ks as [|k0 ks IH]; simpl; [reflexivity|].
  intros H. destruct (String.eqb_spec k0 k) as [->|Hne]; [tauto|].
  rewrite IH; tauto.
Qed.

Lemma set_tabulate_present (k : string) (v : V) (ks : list string) :
  NoDup ks -> In k ks ->
  set k v (tabulate f ks) = map (fun k' => (k', if k' =? k then v else f k')) ks.
Proof.
  induction ks as [|k0 ks IH]; simpl; [tauto|].
  intros Hnd Hin. inversion Hnd as [|? ? Hk0 Hnd']; subst.
  destruct (String.eqb_spec k0 k) as [->|Hne].
  - f_equal. apply map_ext_in. intros k' Hk'.
    destruct (String.eqb_spec k' k) as [->|]; [contradiction | reflexivity].
  - f_equal. apply IH; [assumption|]. destruct Hin; [congruence | assumption].
Qed.

End Tabulated.

Lemma existsb_eqb_In (k : string) (ks : list string) :
  existsb (fun k' => k' =? k) ks = true <-> In k ks.
Proof.
  rewrite existsb_exists. split.
  - intros [x [Hx He]]. apply String.eqb_eq in He. now subst.
  - intros H. exists k. split; [assumption | apply String.eqb_refl].
Qed.

End JsFacts.

(* ================================================================== *)
(** * Facts about DAGView                                              *)
(* ================================================================== *)

Section DAGViewFacts.
Import Js DAGView.

Lemma first_appearances_In (k : string) (l : list string) :
  In k (first_appearances l) <-> In k l.
Proof.
  induction l as [|a l IH]; simpl; [tauto|].
  rewrite filter_In, IH.
  destruct (String.eqb_spec k a) as [->|Hne]; simpl; intuition congruence.
Qed.

Lemma first_appearances_NoDup (l : list string) : NoDup (first_appearances l).
Proof.
  induction l as [|a l IH]; simpl; constructor.
  - rewrite filter_In, String.eqb_refl. simpl. intros [_ H]. discriminate.
  - now apply NoDup_filter.
Qed.

(** A key that comes last is new exactly when it was not seen before. *)
Lemma first_appearances_snoc (l : list string) (k : string) :
  first_appearances (l ++ [k]) =
  if existsb (fun k' => k' =? k) l then first_appearances l
  else first_appearances l ++ [k].
Proof.
  induction l as [|a l IH]; simpl; [reflexivity|].
  rewrite IH.
  destruct (String.eqb_spec a k) as [->|Hne]; simpl.
  - destruct (existsb (fun k' => k' =? k) l); [reflexivity|].
    rewrite filter_app. simpl. rewrite String.eqb_refl. simpl.
    now rewrite app_nil_r.
  - destruct (existsb (fun k' => k' =? k) l); [reflexivity|].
    rewrite filter_app. simpl.
    destruct (String.eqb_spec k a) as [->|_]; [congruence|]. reflexivity.
Qed.

Lemma members_of_snoc (key : Step -> string) (steps : list Step)
      (step : Step) (k : string) :
  members_of key (steps ++ [step]) k =
  members_of key steps k ++ (if key step =? k then [step] else []).
Proof. unfold members_of. rewrite filter_app. reflexivity. Qed.

Lemma members_of_absent (key : Step -> string) (steps : list Step) (k : string) :
  ~ In k (map key steps) -> members_of key steps k = [].
Proof.
  unfold members_of. induction steps as [|s steps IH]; simpl; [reflexivity|].
  intros H. destruct (String.eqb_spec (key s) k); [tauto|]. apply IH. tauto.
Qed.

Lemma cohorts_tabulate (key : Step -> string) (steps : list Step) :
  cohorts key steps =
  tabulate (members_of key steps) (first_appearances (map key steps)).
Proof. reflexivity. Qed.

(** One turn of the loop takes the cohorts of the steps seen so far to
    those of one step more. *)
Lemma add_step_cohorts (steps : list Step) (step : Step) :
  add_step (cohorts group_of steps) step = cohorts group_of (steps ++ [step]).
Proof.
  unfold add_step. rewrite !cohorts_tabulate.
  set (ks := first_appearances (map group_of steps)).
  set (g := group_of step).
  rewrite map_app. simpl map. fold g.
  rewrite first_appearances_snoc. rewrite has_tabulate.
  assert (Hmem : existsb (fun k' => k' =? g) ks
                 = existsb (fun k' => k' =? g) (map group_of steps)).
  { apply eq_true_iff_eq. rewrite !existsb_eqb_In.
    unfold ks. apply first_appearances_In. }
  rewrite <- Hmem. fold ks.
  destruct (existsb (fun k' => k' =? g) ks) eqn:Hin.
  - apply existsb_eqb_In in Hin.
    rewrite get_tabulate_in by assumption.
    rewrite set_tabulate_present
      by (assumption || apply first_appearances_NoDup).
    unfold tabulate. apply map_ext. intros k.
    rewrite members_of_snoc. fold g.
    destruct (String.eqb_spec k g) as [->|Hne].
    + now rewrite String.eqb_refl.
    + destruct (String.eqb_spec g k) as [->|_]; [congruence|].
      now rewrite app_nil_r.
  - assert (Hout : ~ In g ks).
    { rewrite <- existsb_eqb_In. congruence. }
    assert (Hnone : members_of group_of steps g = []).
    { apply members_of_absent. unfold ks in Hout.
      now rewrite first_appearances_In in Hout. }
    rewrite set_tabulate_absent by assumption.
    assert (Hget : get g (tabulate (members_of group_of steps) ks ++ [(g, [])])
                   = Some []).
    { clear - Hout. induction ks as [|k0 ks IH]; simpl.
      - now rewrite String.eqb_refl.
      - destruct (String.eqb_spec k0 g) as [->|_]; [simpl in Hout; tauto|].
        apply IH. simpl in Hout. tauto. }
    rewrite Hget.
    assert (Hset : forall v,
      set g v (tabulate (members_of group_of steps) ks ++ [(g, [])])
      = tabulate (members_of group_of steps) ks ++ [(g, v)]).
    { clear - Hout. intros v. induction ks as [|k0 ks IH]; simpl.
      - now rewrite String.eqb_refl.
      - destruct (String.eqb_spec k0 g) as [->|_]; [simpl in Hout; tauto|].
        f_equal. apply IH. simpl in Hout. tauto. }
    rewrite Hset. unfold tabulate. rewrite map_app. simpl.
    rewrite members_of_snoc. fold g. rewrite String.eqb_refl, Hnone.
    f_equal. apply map_ext_in. intros k Hk.
    rewrite members_of_snoc. fold g.
    destruct (String.eqb_spec g k) as [->|_]; [contradiction|].
    now rewrite app_nil_r.
Qed.

(** The loop computes the cohorts keyed by [parallel_group || id]. *)
Lemma group_steps_cohorts (steps : list Step) :
  group_steps steps = cohorts group_of steps.
Proof.
  unfold group_steps.
  induction steps as [|step steps IH] using rev_ind; [reflexivity|].
  rewrite fold_left_app. simpl. rewrite IH. apply add_step_cohorts.
Qed.

End DAGViewFacts.

Section CohortFacts.
Import Js DAGView.

Lemma get_set_same {V} (k : string) (v : V) (m : JsMap V) :
  get k (set k v m) = Some v.
Proof.
  induction m as [|[k0 v0] m IH]; simpl.
  - now rewrite String.eqb_refl.
  - destruct (String.eqb_spec k0 k) as [->|Hne]; simpl.
    + now rewrite String.eqb_refl.
    + destruct (String.eqb_spec k0 k); [contradiction | exact IH].
Qed.

Lemma set_absent {V} (k : string) (v : V) (m : JsMap V) :
  has k m = false -> set k v m = m ++ [(k, v)].
Proof.
  induction m as [|[k0 v0] m IH]; simpl; [reflexivity|].
  destruct (String.eqb_spec k0 k); simpl; [discriminate|].
  intros H. now rewrite IH.
Qed.

Lemma has_get {V} (k : string) (m : JsMap V) :
  has k m = true -> exists v, get k m = Some v.
Proof.
  induction m as [|[k0 v0] m IH]; simpl; [discriminate|].
  destruct (String.eqb_spec k0 k); simpl; eauto.
Qed.

(** Pushing on the array of a group adds one step to the steps held. *)
Lemma push_Permutation (g : string) (step : Step) (m : JsMap (list Step))
      (members : list Step) :
  get g m = Some members ->
  Permutation (concat (values (set g (members ++ [step]) m)))
              (step :: concat (values m)).
Proof.
  revert members. induction m as [|[k0 v0] m IH]; simpl; [discriminate|].
  intros members. destruct (String.eqb_spec k0 g) as [->|Hne]; simpl.
  - intros [= ->]. rewrite <- app_assoc. simpl.
    symmetry. apply Permutation_middle.
  - intros H. rewrite (IH _ H). symmetry. apply Permutation_middle.
Qed.

Lemma add_step_Permutation (m : JsMap (list Step)) (step : Step) :
  Permutation (concat (values (add_step m step)))
              (step :: concat (values m)).
Proof.
  unfold add_step. set (g := group_of step).
  destruct (has g m) eqn:Hhas.
  - destruct (has_get _ _ Hhas) as [members Hget]. rewrite Hget.
    now apply push_Permutation.
  - rewrite get_set_same.
    rewrite (push_Permutation g step (set g [] m) [] (get_set_same g [] m)).
    constructor. rewrite set_absent by assumption.
    unfold values. rewrite map_app, concat_app. simpl.
    now rewrite !app_nil_r.
Qed.

Lemma fold_add_step_Permutation (steps : list Step) (m : JsMap (list Step)) :
  Permutation (concat (values (fold_left add_step steps m)))
              (concat (values m) ++ steps).
Proof.
  revert m. induction steps as [|step steps IH]; intros m; simpl.
  - now rewrite app_nil_r.
  - rewrite IH, add_step_Permutation. simpl.
    apply Permutation_middle.
Qed.

(** Every step is in the cohort of its key. *)
Lemma cohort_of_step (steps : list Step) (step : Step) :
  In step steps ->
  get (group_of step) (group_steps steps)
    = Some (members_of group_of steps (group_of step))
  /\ In step (members_of group_of steps (group_of step)).
Proof.
  intros Hin. rewrite group_steps_cohorts, cohorts_tabulate. split.
  - apply get_tabulate_in. apply first_appearances_In. now apply in_map.
  - unfold members_of. apply filter_In. split; [assumption|].
    apply String.eqb_refl.
Qed.

(** C9, as the code has it: the loop yields one cohort per key, the key
    of a step being its [parallel_group] when that is a non-empty string
    and its own id when the group is absent, null or empty.  The cohorts
    stand in the order in which their keys first appear in the step list,
    each holds exactly the steps of its key in list order, and together
    they hold every step once.  Steps with the same non-empty
    [parallel_group] share the cohort of that name, and a step without a
    usable group is in the cohort keyed by its own id. *)
Theorem cohorts_by_group_or_id (steps : list Step) :
  group_steps steps = cohorts group_of steps
  /\ keys (group_steps steps) = first_appearances (map group_of steps)
  /\ Permutation (concat (groupsArray steps)) steps
  /\ (forall a b g,
        In a steps -> In b steps ->
        parallel_group a = Some g -> parallel_group b = Some g -> g <> "" ->
        exists members,
          get g (group_steps steps) = Some members
          /\ In a members /\ In b members)
  /\ (forall a,
        In a steps -> truthy (parallel_group a) = false ->
        exists members,
          get (id a) (group_steps steps) = Some members /\ In a members).
Proof.
  split; [apply group_steps_cohorts|].
  split.
  { rewrite group_steps_cohorts. unfold cohorts, keys.
    rewrite map_map. simpl. apply map_id. }
  split.
  { unfold groupsArray, group_steps.
    now rewrite fold_add_step_Permutation. }
  split.
  - intros a b g Ha Hb Hga Hgb Hg.
    assert (Hkey : forall s, parallel_group s = Some g -> group_of s = g).
    { intros s Hs. unfold group_of, or_else. rewrite Hs.
      apply truthy_string_nonempty in Hg. now rewrite Hg. }
    destruct (cohort_of_step steps a Ha) as [Hget Hina].
    destruct (cohort_of_step steps b Hb) as [_ Hinb].
    rewrite (Hkey a Hga) in Hget, Hina. rewrite (Hkey b Hgb) in Hinb.
    eauto.
  - intros a Ha Hnone.
    assert (Hkey : group_of a = id a).
    { unfold group_of, or_else. destruct (parallel_group a) as [g|];
        [|reflexivity]. simpl in Hnone. now rewrite Hnone. }
    destruct (cohort_of_step steps a Ha) as [Hget Hina].
    rewrite Hkey in Hget, Hina. eauto.
Qed.

(** The theorem at five steps: the two [build] steps share a cohort, the
    step without a group stands alone under its id. *)
Lemma cohorts_by_group_or_id_witness :
  (exists members,
     get "build" (group_steps Scenarios.pipeline) = Some members
     /\ In Scenarios.api members /\ In Scenarios.ui members)
  /\ (exists members,
        get "plan" (group_steps Scenarios.pipeline) = Some members
        /\ In Scenarios.plan members).
Proof.
  destruct (cohorts_by_group_or_id Scenarios.pipeline)
    as (_ & _ & _ & Hsame & Hown).
  split.
  - apply (Hsame Scenarios.api Scenarios.ui "build");
      [simpl; tauto | simpl; tauto | reflexivity | reflexivity | discriminate].
  - apply (Hown Scenarios.plan); [simpl; tauto | reflexivity].
Defined.

(** C9 as stated fails on an empty [parallel_group]: two steps that both
    carry the group [""] end in two cohorts, each under its own id, where
    the stated key would put them in one. *)
Lemma empty_group_is_no_group :
  parallel_group Scenarios.lint = Some ""
  /\ parallel_group Scenarios.test = Some ""
  /\ group_steps [Scenarios.lint; Scenarios.test]
     = [("lint", [Scenarios.lint]); ("test", [Scenarios.test])]
  /\ cohorts stated_key [Scenarios.lint; Scenarios.test]
     = [("", [Scenarios.lint; Scenarios.test])].
Proof. repeat split. Qed.

End CohortFacts.

(* ================================================================== *)
(** * Facts about the project page                                     *)
(* ================================================================== *)

(** Case analysis on whatever the goal branches on. *)
Ltac break_matches :=
  repeat match goal with
  | |- context [match ?x with _ => _ end] =>
      lazymatch x with
      | context [match _ with _ => _ end] => fail
      | _ => destruct x eqn:?; simpl
      end
  end.

(** Rewrite the hypotheses with the equations that case analysis left. *)
Ltac use_equations :=
  repeat match goal with
  | H : ?x = _, H' : context [?x] |- _ =>
      lazymatch type of H' with
      | x = _ => fail
      | _ => rewrite H in H'; simpl in H'
      end
  end.

(** Unfold the handlers down to the setters. *)
Ltac unfold_page :=
  unfold ProjectPage.handle, ProjectPage.handleSave, ProjectPage.handleFix,
    ProjectPage.handleDeepReview, ProjectPage.handleChat,
    ProjectPage.toolbar_shown, ProjectPage.top_level, ProjectPage.onmessage,
    ProjectPage.continuation, ProjectPage.handleChat_rest,
    ProjectPage.after_chat, ProjectPage.try_catch, ProjectPage.bind,
    ProjectPage.lift, ProjectPage.perform, ProjectPage.read, ProjectPage.ret,
    ProjectPage.throw, ProjectPage.await, ProjectPage.json_listing,
    ProjectPage.json_status, ProjectPage.json_answer,
    ProjectPage.json_verdict, ProjectPage.fetchFiles,
    ProjectPage.fetchStatus, ProjectPage.fetchFileContent,
    Js.JSON_parse, Js.prop.

Section CommitFacts.
Import Js ProjectPage.

Lemma effects_idle (w : World) : effects false false false w = w.
Proof. reflexivity. Qed.

Lemma Editor_effect_state (c : string) (w : World) :
  state (Editor_effect c w) = state w
  /\ projectId (Editor_effect c w) = projectId w
  /\ selectedFileRef (Editor_effect c w) = selectedFileRef w
  /\ ws (Editor_effect c w) = ws w
  /\ inflight (Editor_effect c w) = inflight w
  /\ outbox (Editor_effect c w) = outbox w.
Proof.
  unfold Editor_effect. destruct (value w); [|repeat split].
  destruct (c =? fileContent (state w)); repeat split.
Qed.

Lemma Editor_effect_same (w : World) :
  Editor_effect (fileContent (state w)) w = w.
Proof.
  unfold Editor_effect. destruct (value w); [|reflexivity].
  now rewrite String.eqb_refl.
Qed.

(** Nothing runs on commit when no dependency changed. *)
Lemma commit_quiet (before w : World) : quiet before w -> commit before w = w.
Proof.
  intros (Hsel & Hid & Hver & Hcontent). unfold commit.
  rewrite <- Hcontent, Editor_effect_same.
  rewrite Hsel, Hid, Hver, !same_refl, Z.eqb_refl. reflexivity.
Qed.

Lemma step_quiet (w : World) (i : Input) :
  quiet w (handle w i) -> step w i = handle w i.
Proof. apply commit_quiet. Qed.

(** What a commit leaves alone. *)
Lemma commit_state (before w : World) :
  state (commit before w) = state w
  /\ projectId (commit before w) = projectId w
  /\ outbox (commit before w) = outbox w.
Proof.
  unfold commit.
  destruct (Editor_effect_state (fileContent (state before)) w)
    as (Hs & Hp & _ & _ & _ & Ho).
  set (w1 := Editor_effect (fileContent (state before)) w) in *.
  rewrite <- Hs, <- Hp, <- Ho. clearbody w1. clear.
  unfold effects, fetchStatus, fetchFiles, fetchFileContent.
  break_matches; auto.
Qed.

End CommitFacts.

Section InvariantFacts.
Import Js ProjectPage.

(** No handler touches the ref or the socket: only effects do. *)
Lemma handle_ref_ws (w : World) (i : Input) :
  selectedFileRef (handle w i) = selectedFileRef w
  /\ ws (handle w i) = ws w.
Proof.
  destruct i; unfold_page; simpl; break_matches; auto.
Qed.

Lemma commit_coherent (before w : World) :
  coherent before ->
  selectedFileRef w = selectedFileRef before ->
  ws w = ws before ->
  coherent (commit before w).
Proof.
  intros [Href Hws] Hr Hw. unfold commit.
  destruct (Editor_effect_state (fileContent (state before)) w)
    as (Hs & Hp & Hr1 & Hw1 & _ & _).
  set (w1 := Editor_effect (fileContent (state before)) w) in *.
  rewrite <- Hr1 in Hr. rewrite <- Hw1 in Hw. clearbody w1. clear Hs Hp Hr1 Hw1.
  rewrite Href in Hr. rewrite Hws in Hw. clear Href Hws.
  unfold coherent, effects, fetchStatus, fetchFiles, fetchFileContent.
  destruct (same_spec (selectedFile (state before)) (selectedFile (state w1)))
    as [Hsel|_];
  destruct (same_spec (projectId before) (projectId w1)) as [Hid|_];
  destruct (Z.eqb_spec (version (state before)) (version (state w1)))
    as [Hver|_];
  simpl;
    try rewrite <- Hsel; try rewrite <- Hid in *; try rewrite <- Hver in *;
    break_matches; simpl; split; use_equations; congruence.
Qed.

Lemma mount_coherent (id : option string) : coherent (mount id).
Proof.
  unfold mount, coherent, effects, fetchStatus, fetchFiles. simpl.
  destruct id as [pid|]; simpl; [|auto].
  destruct (truthy_string pid) eqn:Hpid; simpl; rewrite ?Hpid; auto.
Qed.

Lemma step_coherent (w : World) (i : Input) :
  coherent w -> coherent (step w i).
Proof.
  intros H. destruct (handle_ref_ws w i) as [Hr Hw].
  now apply commit_coherent.
Qed.

Lemma run_coherent (inputs : list Input) (w : World) :
  coherent w -> coherent (run w inputs).
Proof.
  revert w. induction inputs as [|i inputs IH]; intros w H; simpl; [assumption|].
  apply IH. now apply step_coherent.
Qed.

(** In every world the page can be in, the ref holds the latest selection
    and the socket closes over the latest project and version. *)
Lemma reachable_coherent (w : World) : reachable w -> coherent w.
Proof.
  intros (id & inputs & ->). apply run_coherent, mount_coherent.
Qed.

End InvariantFacts.

Section StreamFacts.
Import Js ProjectPage.

(** A frame changes no dependency of an effect. *)
Lemma frame_quiet (w : World) (data : payload) :
  quiet w (handle w (Frame data)).
Proof.
  unfold quiet. unfold_page. simpl. break_matches; auto.
Qed.

Lemma step_frame (w : World) (data : payload) :
  step w (Frame data) = handle w (Frame data).
Proof. apply step_quiet, frame_quiet. Qed.

(** The handler never throws. *)
Lemma onmessage_returns (socket : Socket) (data : payload) (w : World) :
  exists w', onmessage socket data w = Normal tt w'.
Proof.
  unfold_page. simpl. break_matches; eauto; destruct a; eauto.
Qed.

(** What the handler does on an accepted event, in one expression. *)
Lemma onmessage_accepted (socket : Socket) (fields : list (string * json))
      (w : World) :
  member "type" fields = Some (JStr "event") ->
  onmessage socket (Json (JObj fields)) w =
  Normal tt
    (let projectId := Some (ws_projectId socket) in
     let artifact_path := member "artifact_path" fields in
     let w1 :=
       fetchStatus projectId
         (update (setLogs (fun prev => slice_last 199 prev ++ [JObj fields]))
                 w) in
     if truthy_value artifact_path then
       let w2 := emit (Played playSuccess) (fetchFiles projectId w1) in
       match selectedFileRef w with
       | Some selected =>
           if truthy_string selected
              && strict_eq_string artifact_path selected
           then fetchFileContent projectId (ws_version socket) selected None w2
           else w2
       | None => w2
       end
     else w1).
Proof.
  intros Htype. unfold onmessage, try_catch, bind, lift, perform, read, ret.
  simpl. rewrite Htype. simpl.
  destruct (truthy_value (member "artifact_path" fields)); [|reflexivity].
  unfold fetchFiles, fetchStatus, fetchFileContent. simpl.
  break_matches; reflexivity.
Qed.

(** What is not an accepted event is dropped. *)
Lemma onmessage_other (socket : Socket) (data : payload) (w : World) :
  (forall value, data = Json value -> ~ accepted value) ->
  onmessage socket data w = Normal tt w.
Proof.
  intros Hnot. unfold onmessage, try_catch, bind, lift, ret. simpl.
  destruct data as [raw|value]; simpl; [reflexivity|].
  specialize (Hnot value eq_refl).
  destruct value; simpl; try reflexivity.
  destruct (member "type" fields) as [[| | |s| |]|] eqn:Htype;
    simpl; try reflexivity.
  destruct (String.eqb_spec s "event") as [->|_]; [|reflexivity].
  exfalso. apply Hnot. exists fields. auto.
Qed.

(** C3: a frame that is not JSON is dropped, the handler returns normally
    on every frame, and a frame that parses to anything but an object whose
    [type] is [event] leaves the whole world as it was: nothing is logged,
    no request is sent. *)
Theorem stream_noise_is_dropped (socket : Socket) (data : payload) (w : World) :
  (exists w', onmessage socket data w = Normal tt w')
  /\ (forall raw, data = NotJson raw ->
        onmessage socket data w = Normal tt w /\ step w (Frame data) = w)
  /\ ((forall value, data = Json value -> ~ accepted value) ->
        onmessage socket data w = Normal tt w /\ step w (Frame data) = w).
Proof.
  assert (Hdrop : (forall value, data = Json value -> ~ accepted value) ->
            onmessage socket data w = Normal tt w /\ step w (Frame data) = w).
  { intros Hnot. split; [now apply onmessage_other|].
    rewrite step_frame. simpl. destruct (ws w) as [s|]; [|reflexivity].
    unfold top_level. now rewrite onmessage_other. }
  split; [apply onmessage_returns|]. split; [|exact Hdrop].
  intros raw ->. apply Hdrop. intros value H. discriminate.
Qed.

End StreamFacts.

Section StreamWitnesses.
Import Js ProjectPage.

(** The theorem at a frame that is no JSON and at the frame [null]. *)
Lemma stream_noise_is_dropped_witness :
  step Scenarios.opened (Frame (NotJson "{oops")) = Scenarios.opened
  /\ step Scenarios.opened (Frame (Json JNull)) = Scenarios.opened.
Proof.
  split.
  - destruct (stream_noise_is_dropped
                {| ws_projectId := "demo"; ws_version := 1 |}
                (NotJson "{oops") Scenarios.opened) as (_ & Hraw & _).
    exact (proj2 (Hraw "{oops" eq_refl)).
  - destruct (stream_noise_is_dropped
                {| ws_projectId := "demo"; ws_version := 1 |}
                (Json JNull) Scenarios.opened) as (_ & _ & Hother).
    apply Hother. intros value [= <-] (fields & Hobj & _). discriminate.
Defined.

End StreamWitnesses.

Section LogFacts.
Import Js ProjectPage.

Lemma slice_last_app_slice {A} (k : nat) (a b : list A) :
  slice_last k (slice_last k a ++ b) = slice_last k (a ++ b).
Proof.
  unfold slice_last.
  rewrite !length_app, length_skipn, !skipn_app, skipn_skipn, length_skipn.
  f_equal; f_equal; lia.
Qed.

(** Pushing events one by one keeps the last 200 of all of them. *)
Lemma push_all (events : list json) (prev : list json) :
  length prev <= 200 ->
  fold_left push_log events prev = slice_last 200 (prev ++ events).
Proof.
  revert prev. induction events as [|e events IH]; intros prev Hlen; simpl.
  - rewrite app_nil_r. symmetry. now apply slice_last_all.
  - unfold push_log at 2. rewrite slice_last_push.
    rewrite IH.
    + rewrite slice_last_app_slice, <- app_assoc. reflexivity.
    + rewrite slice_last_length. lia.
Qed.

(** An accepted event is pushed on the log; the socket stays. *)
Lemma step_accepted (w : World) (socket : Socket) (data : json) :
  ws w = Some socket -> accepted data ->
  logs (state (step w (frame_of data))) = push_log (logs (state w)) data
  /\ ws (step w (frame_of data)) = Some socket.
Proof.
  intros Hws (fields & -> & Htype). unfold frame_of.
  rewrite step_frame. simpl. rewrite Hws. unfold top_level.
  rewrite (onmessage_accepted socket fields w Htype).
  unfold fetchFiles, fetchStatus, fetchFileContent. simpl.
  break_matches; auto.
Qed.

Lemma run_accepted (events : list json) (w : World) (socket : Socket) :
  ws w = Some socket -> Forall accepted events ->
  logs (state (run w (map frame_of events)))
  = fold_left push_log events (logs (state w)).
Proof.
  revert w. induction events as [|e events IH]; intros w Hws Hall;
    [reflexivity|].
  inversion Hall as [|? ? He Hrest]; subst.
  destruct (step_accepted w socket e Hws He) as [Hlogs Hws'].
  change (run w (map frame_of (e :: events)))
    with (run (step w (frame_of e)) (map frame_of events)).
  rewrite (IH _ Hws' Hrest), Hlogs. reflexivity.
Qed.

(** Only frames write the log. *)
Lemma logs_frame (w : World) (i : Input) :
  (forall data, i <> Frame data) ->
  logs (state (step w i)) = logs (state w).
Proof.
  intros Hi. unfold step.
  destruct (commit_state w (handle w i)) as (-> & _ & _).
  destruct i; try (exfalso; now apply (Hi data));
    unfold_page; simpl; break_matches; reflexivity.
Qed.

(** C2: from an empty log, after [N] accepted events the log holds the
    last 200 of them in arrival order: exactly 200 entries when there were
    more, all [N] events otherwise. *)
Theorem log_is_bounded (w : World) (events : list json) :
  ws w <> None -> logs (state w) = [] -> Forall accepted events ->
  let N := length events in
  let retained := logs (state (run w (map frame_of events))) in
  retained = skipn (N - 200) events
  /\ (200 < N -> length retained = 200)
  /\ (N <= 200 -> retained = events).
Proof.
  intros Hws Hempty Hall N retained.
  destruct (ws w) as [socket|] eqn:Hsocket; [|congruence].
  assert (Hretained : retained = skipn (N - 200) events).
  { unfold retained. rewrite (run_accepted events w socket Hsocket Hall), Hempty.
    rewrite push_all by (simpl; lia). reflexivity. }
  split; [exact Hretained|]. split.
  - intros HN. rewrite Hretained, length_skipn. fold N. lia.
  - intros HN. rewrite Hretained.
    replace (N - 200) with 0 by lia. reflexivity.
Qed.

Lemma burst_accepted (n : nat) : Forall accepted (Scenarios.burst n).
Proof.
  unfold Scenarios.burst. apply Forall_forall. intros e He.
  apply in_map_iff in He. destruct He as (k & <- & _).
  eexists. split; reflexivity.
Qed.

(** The theorem at 203 numbered events on the page of project [demo]:
    200 remain, and the first of them is the fourth that arrived. *)
Lemma log_is_bounded_witness :
  length (logs (state (run Scenarios.opened
                           (map frame_of (Scenarios.burst 203))))) = 200
  /\ nth_error (logs (state (run Scenarios.opened
                                (map frame_of (Scenarios.burst 203))))) 0
     = Some (Scenarios.numbered 3).
Proof.
  destruct (log_is_bounded Scenarios.opened (Scenarios.burst 203))
    as (Hlast & Hlen & _).
  - discriminate.
  - reflexivity.
  - apply burst_accepted.
  - split.
    + apply Hlen. vm_compute. lia.
    + rewrite Hlast. reflexivity.
Defined.

End LogFacts.

Section ArtifactFacts.
Import Js ProjectPage.

(** What a frame with an accepted event sends, given the ref and the
    closure of the socket. *)
Lemma accepted_sends (w : World) (socket : Socket)
      (fields : list (string * json)) :
  ws w = Some socket ->
  truthy_string (ws_projectId socket) = true ->
  member "type" fields = Some (JStr "event") ->
  let pid := ws_projectId socket in
  let artifact_path := member "artifact_path" fields in
  inflight (step w (Frame (Json (JObj fields)))) =
  inflight w ++ GET_status pid ::
    (if truthy_value artifact_path then
       GET_files pid ::
         match selectedFileRef w with
         | Some selected =>
             if truthy_string selected
                && strict_eq_string artifact_path selected
             then [GET_file pid selected (ws_version socket)]
             else []
         | None => []
         end
     else []).
Proof.
  intros Hws Hpid Htype pid artifact_path. subst pid artifact_path.
  rewrite step_frame. simpl. rewrite Hws. unfold top_level.
  rewrite (onmessage_accepted socket fields w Htype).
  unfold fetchFiles, fetchStatus, fetchFileContent. rewrite Hpid.
  set (artifact_path := member "artifact_path" fields). simpl.
  destruct (truthy_value artifact_path); simpl; [|reflexivity].
  destruct (selectedFileRef w) as [selected|]; simpl;
    [|now rewrite <- app_assoc].
  destruct (truthy_string selected && strict_eq_string artifact_path selected);
    simpl; rewrite <- !app_assoc; reflexivity.
Qed.

Lemma strict_eq_string_spec (v : option json) (s : string) :
  strict_eq_string v s = true <-> v = Some (JStr s).
Proof.
  destruct v as [[| | |t| |]|]; simpl; split; try congruence.
  - intros H. apply String.eqb_eq in H. now subst.
  - intros [= ->]. apply String.eqb_refl.
Qed.

(** C4, as the code has it: on a page that was reached by any inputs and
    has a project, an accepted event always sends a status refresh.  When
    its [artifact_path] is truthy (a non-empty string, for one) it also
    sends a listing refresh, followed by one content fetch of the selected
    path at the current version exactly when the [artifact_path] is that
    path, the selection being the one of the latest render; when the
    [artifact_path] is absent or falsy (null, the empty string) nothing
    but the status refresh is sent. *)
Theorem artifact_refetch (w : World) (pid : string)
        (fields : list (string * json)) :
  reachable w ->
  projectId w = Some pid -> truthy_string pid = true ->
  member "type" fields = Some (JStr "event") ->
  let artifact_path := member "artifact_path" fields in
  let w' := step w (Frame (Json (JObj fields))) in
  (truthy_value artifact_path = false ->
     inflight w' = inflight w ++ [GET_status pid])
  /\ (truthy_value artifact_path = true ->
      (forall path,
         artifact_path = Some (JStr path) ->
         selectedFile (state w) = Some path ->
         inflight w' = inflight w ++
           [GET_status pid; GET_files pid;
            GET_file pid path (version (state w))])
      /\ ((forall path,
             selectedFile (state w) = Some path ->
             artifact_path <> Some (JStr path)) ->
          inflight w' = inflight w ++ [GET_status pid; GET_files pid])).
Proof.
  intros Hreach Hid Hpid Htype artifact_path w'.
  destruct (reachable_coherent w Hreach) as [Href Hws].
  rewrite Hid, Hpid in Hws.
  pose proof (accepted_sends w _ fields Hws Hpid Htype) as Hsent.
  simpl in Hsent. fold artifact_path in Hsent. fold w' in Hsent.
  rewrite Href in Hsent. split.
  - intros Hfalsy. now rewrite Hfalsy in Hsent.
  - intros Htruthy. rewrite Htruthy in Hsent. split.
    + intros path Hpath Hsel. rewrite Hsel, Hpath in Hsent.
      rewrite Hpath in Htruthy. simpl in Htruthy, Hsent.
      now rewrite Htruthy, String.eqb_refl in Hsent.
    + intros Hother.
      destruct (selectedFile (state w)) as [selected|]; [|exact Hsent].
      destruct (strict_eq_string artifact_path selected) eqn:Heq.
      * apply strict_eq_string_spec in Heq. now apply Hother in Heq.
      * now rewrite andb_false_r in Hsent.
Qed.

Lemma b_selected_reachable : reachable Scenarios.b_selected.
Proof.
  exists (Some "demo").
  exists [SelectFile (Some "a.py"); SelectFile (Some "b.py");
          Settle 3 (Resolved (Scenarios.found "text of b.py"))].
  unfold Scenarios.b_selected, Scenarios.a_selected, Scenarios.opened, run.
  cbn [fold_left]. reflexivity.
Qed.

(** The theorem on the page of [demo] with [b.py] selected: an event for
    [b.py] refetches it, an event for [a.py] only refreshes the listing. *)
Lemma artifact_refetch_witness :
  inflight (step Scenarios.b_selected
              (frame_of (Scenarios.artifact_event "b.py")))
  = inflight Scenarios.b_selected ++
      [GET_status "demo"; GET_files "demo"; GET_file "demo" "b.py" 1]
  /\ inflight (step Scenarios.b_selected
                 (frame_of (Scenarios.artifact_event "a.py")))
     = inflight Scenarios.b_selected ++ [GET_status "demo"; GET_files "demo"].
Proof.
  split.
  - refine (proj1 (proj2 (artifact_refetch Scenarios.b_selected "demo"
                            (Scenarios.artifact_fields "b.py")
                            b_selected_reachable eq_refl eq_refl eq_refl)
                         eq_refl) "b.py" eq_refl eq_refl).
  - refine (proj2 (proj2 (artifact_refetch Scenarios.b_selected "demo"
                            (Scenarios.artifact_fields "a.py")
                            b_selected_reachable eq_refl eq_refl eq_refl)
                         eq_refl) _).
    intros path Hsel. vm_compute in Hsel. injection Hsel as <-. discriminate.
Defined.

(** C4 as stated fails on an event that carries an empty [artifact_path]:
    the event is accepted and logged, and only the status refresh is sent,
    no listing refresh. *)
Lemma empty_artifact_path_is_none :
  member "artifact_path" (Scenarios.artifact_fields "") = Some (JStr "")
  /\ logs (state (step Scenarios.b_selected
                    (frame_of (Scenarios.artifact_event ""))))
     = [Scenarios.artifact_event ""]
  /\ inflight (step Scenarios.b_selected
                 (frame_of (Scenarios.artifact_event "")))
     = inflight Scenarios.b_selected ++ [GET_status "demo"].
Proof. repeat split. Qed.

End ArtifactFacts.

Section FetchFacts.
Import Js ProjectPage.

(** When the selection, the project and the version stay, a commit only
    runs the effect of [Editor]. *)
Lemma commit_content (before w : World) :
  selectedFile (state w) = selectedFile (state before) ->
  projectId w = projectId before ->
  version (state w) = version (state before) ->
  commit before w = Editor_effect (fileContent (state before)) w.
Proof.
  intros Hsel Hid Hver. unfold commit.
  destruct (Editor_effect_state (fileContent (state before)) w)
    as (Hs & Hp & _).
  rewrite Hs, Hp, Hsel, Hid, Hver, !same_refl, Z.eqb_refl. reflexivity.
Qed.

(** A content fetch that resolves with a success status. *)
Lemma settle_content (w : World) (n : nat) (pid path : string) (v : Z)
      (response : Response) :
  nth_error (inflight w) n = Some (GET_file pid path v) ->
  ok response = true ->
  step w (Settle n (Resolved response)) =
  Editor_effect (fileContent (state w))
    (update (setFileContent (text response)) (settled n w)).
Proof.
  intros Hnth Hok. unfold step. simpl. rewrite Hnth. simpl.
  unfold top_level, bind, await, ret, perform. rewrite Hok.
  now apply commit_content.
Qed.

(** A read that resolves with a failure status. *)
Lemma settle_failed_read (w : World) (n : nat) (r : Request)
      (response : Response) :
  nth_error (inflight w) n = Some r ->
  is_read r = true -> ok response = false ->
  step w (Settle n (Resolved response)) = settled n w.
Proof.
  intros Hnth Hread Hok. unfold step. simpl. rewrite Hnth.
  assert (Hk : top_level (continuation r (Resolved response)) (settled n w)
               = settled n w).
  { destruct r; try discriminate;
      unfold top_level, continuation, bind, await, ret; now rewrite Hok. }
  rewrite Hk. apply commit_quiet. repeat split.
Qed.

(** The state after a content fetch resolved with a success status. *)
Lemma settle_content_state (w : World) (n : nat) (pid path : string) (v : Z)
      (response : Response) :
  nth_error (inflight w) n = Some (GET_file pid path v) ->
  ok response = true ->
  state (step w (Settle n (Resolved response)))
  = setFileContent (text response) (state w).
Proof.
  intros Hnth Hok.
  rewrite (settle_content w n pid path v response Hnth Hok).
  now destruct (Editor_effect_state (fileContent (state w))
                  (update (setFileContent (text response)) (settled n w)))
    as (-> & _).
Qed.

(** Selecting a path changes neither the project nor the version: of the
    effects, only those that depend on the selection may run. *)
Lemma step_select (w : World) (path : option string) :
  step w (SelectFile path) =
  effects (negb (same (selectedFile (state w)) path)) false false
    (emit (Played playHover) (update (setSelectedFile path) w)).
Proof.
  unfold step, commit. simpl handle.
  set (w1 := emit (Played playHover) (update (setSelectedFile path) w)).
  replace (fileContent (state w)) with (fileContent (state w1))
    by reflexivity.
  rewrite Editor_effect_same. simpl.
  now rewrite same_refl, Z.eqb_refl.
Qed.

(** C1, as the code has it: a content fetch that resolves with a success
    status always replaces the content with its text, whatever the
    selection and the version are by then: the selection and the version
    stay as they are, and the buffer of the editor follows the content
    when the text differs from the content before.  No result is
    discarded as stale. *)
Theorem resolved_content_is_applied (w : World) (n : nat) (pid path : string)
        (v : Z) (response : Response) :
  nth_error (inflight w) n = Some (GET_file pid path v) ->
  ok response = true ->
  let w' := step w (Settle n (Resolved response)) in
  fileContent (state w') = text response
  /\ selectedFile (state w') = selectedFile (state w)
  /\ version (state w') = version (state w)
  /\ (forall buffer,
        value w = Some buffer ->
        fileContent (state w) <> text response ->
        value w' = Some (text response)).
Proof.
  intros Hnth Hok w'. unfold w'.
  rewrite (settle_content_state w n pid path v response Hnth Hok).
  repeat split.
  intros buffer Hbuffer Hnew.
  rewrite (settle_content w n pid path v response Hnth Hok).
  unfold Editor_effect. simpl. rewrite Hbuffer.
  destruct (String.eqb_spec (fileContent (state w)) (text response));
    [contradiction | reflexivity].
Qed.

(** The theorem on the page of [demo] where [b.py] is selected and shown
    and the fetch of [a.py] resolves late: the text of [a.py] is the
    content. *)
Lemma resolved_content_is_applied_witness :
  fileContent (state (step Scenarios.b_selected
                        (Settle 2 (Resolved (Scenarios.found "text of a.py")))))
  = "text of a.py".
Proof.
  exact (proj1 (resolved_content_is_applied Scenarios.b_selected 2
                  "demo" "a.py" 1 (Scenarios.found "text of a.py")
                  eq_refl eq_refl)).
Defined.

(** C1 as stated fails: [a.py] at version 1 was requested, then [b.py]
    was selected and its text arrived; when the fetch of [a.py] resolves,
    the selection is still [b.py] at version 1 and the editor shows the
    text of [a.py] under the path [b.py]. *)
Lemma stale_content_is_shown :
  nth_error (inflight Scenarios.b_selected) 2 = Some (GET_file "demo" "a.py" 1)
  /\ selectedFile (state Scenarios.b_selected) = Some "b.py"
  /\ version (state Scenarios.b_selected) = 1%Z
  /\ Editor_shows Scenarios.b_selected = Some ("b.py", "text of b.py")
  /\ Editor_shows (step Scenarios.b_selected
                     (Settle 2 (Resolved (Scenarios.found "text of a.py"))))
     = Some ("b.py", "text of a.py").
Proof. repeat split. Qed.

(** C5, as the code has it: selecting null sends no request; but a content
    fetch that resolves with a success status while nothing is selected is
    applied to the content all the same.  The buffer of the editor, where
    the editor is mounted, takes the text too when the text differs from
    the content before, and stays as it is when the text is the content
    before (the effect of [Editor] only runs when [content] changes); an
    editor that is not mounted has no buffer.  The editor shows only its
    hint as long as nothing is selected. *)
Theorem null_selection (w : World) :
  (selectedFile (state (step w (SelectFile None))) = None
   /\ inflight (step w (SelectFile None)) = inflight w)
  /\ (forall n pid path v response,
        selectedFile (state w) = None ->
        nth_error (inflight w) n = Some (GET_file pid path v) ->
        ok response = true ->
        let w' := step w (Settle n (Resolved response)) in
        fileContent (state w') = text response
        /\ value w' =
           match value w with
           | Some buffer =>
               Some (if fileContent (state w) =? text response
                     then buffer else text response)
           | None => None
           end
        /\ Editor_shows w' = None).
Proof.
  split.
  - rewrite step_select. unfold effects. simpl.
    destruct (negb (same (selectedFile (state w)) None)); auto.
  - intros n pid path v response Hnone Hnth Hok w'.
    pose proof (settle_content_state w n pid path v response Hnth Hok)
      as Hstate.
    fold w' in Hstate. unfold Editor_shows. rewrite Hstate. simpl.
    rewrite Hnone. split; [reflexivity|]. split.
    + unfold w'.
      rewrite (settle_content w n pid path v response Hnth Hok).
      unfold Editor_effect.
      change (value (update (setFileContent (text response)) (settled n w)))
        with (value w).
      destruct (value w) as [buffer|] eqn:Hbuffer; [|exact Hbuffer].
      change (fileContent
                (state (update (setFileContent (text response))
                          (settled n w))))
        with (text response).
      destruct (fileContent (state w) =? text response);
        [exact Hbuffer | reflexivity].
    + destruct (activeTab (state w)); reflexivity.
Qed.

(** The theorem on the page of [demo] after [a.py] was selected and the
    selection cleared: clearing sent nothing, and the text of [a.py] is
    taken, by the content and by the buffer, when it arrives. *)
Lemma null_selection_witness :
  inflight (step Scenarios.a_selected (SelectFile None))
  = inflight Scenarios.a_selected
  /\ fileContent (state (step Scenarios.deselected
                           (Settle 2 (Resolved (Scenarios.found "text of a.py")))))
     = "text of a.py"
  /\ value (step Scenarios.deselected
              (Settle 2 (Resolved (Scenarios.found "text of a.py"))))
     = Some "text of a.py".
Proof.
  split; [|split].
  - exact (proj2 (proj1 (null_selection Scenarios.a_selected))).
  - exact (proj1 (proj2 (null_selection Scenarios.deselected) 2 "demo" "a.py"
                    1%Z (Scenarios.found "text of a.py")
                    eq_refl eq_refl eq_refl)).
  - exact (proj1 (proj2 (proj2 (null_selection Scenarios.deselected) 2 "demo"
                           "a.py" 1%Z (Scenarios.found "text of a.py")
                           eq_refl eq_refl eq_refl))).
Defined.

(** C5 as stated fails in its second half: [a.py] was selected, then the
    selection was cleared; the fetch of [a.py] resolves afterwards and its
    text replaces the content, and it is what the editor shows under the
    path selected next. *)
Lemma late_result_is_applied_after_deselection :
  selectedFile (state Scenarios.deselected) = None
  /\ nth_error (inflight Scenarios.deselected) 2
     = Some (GET_file "demo" "a.py" 1)
  /\ fileContent (state Scenarios.deselected) = ""
  /\ fileContent (state (step Scenarios.deselected
                           (Settle 2 (Resolved (Scenarios.found "text of a.py")))))
     = "text of a.py"
  /\ Editor_shows (run Scenarios.deselected
                     [Settle 2 (Resolved (Scenarios.found "text of a.py"));
                      SelectFile (Some "b.py")])
     = Some ("b.py", "text of a.py").
Proof. repeat split. Qed.

End FetchFacts.

Section ReadFailureFacts.
Import Js ProjectPage.

(** C6: when a listing, status or content fetch resolves with a failure
    status, the state of the page (listing, steps and status, content and
    all the rest) and the buffer of the editor are what they were; the
    request is gone and nothing is reported. *)
Theorem failed_read_keeps_state (w : World) (n : nat) (r : Request)
        (response : Response) :
  nth_error (inflight w) n = Some r ->
  is_read r = true -> ok response = false ->
  let w' := step w (Settle n (Resolved response)) in
  state w' = state w
  /\ value w' = value w
  /\ outbox w' = outbox w
  /\ inflight w' = remove_nth n (inflight w).
Proof.
  intros Hnth Hread Hok w'. unfold w'.
  rewrite (settle_failed_read w n r response Hnth Hread Hok).
  repeat split.
Qed.

(** The theorem on the page of [demo] with [a.py] selected, at each of
    its three requests in flight. *)
Lemma failed_read_keeps_state_witness :
  state (step Scenarios.a_selected (Settle 0 (Resolved Scenarios.not_found)))
  = state Scenarios.a_selected
  /\ state (step Scenarios.a_selected (Settle 1 (Resolved Scenarios.not_found)))
     = state Scenarios.a_selected
  /\ state (step Scenarios.a_selected (Settle 2 (Resolved Scenarios.not_found)))
     = state Scenarios.a_selected.
Proof.
  split; [|split].
  - exact (proj1 (failed_read_keeps_state Scenarios.a_selected 0
                    (GET_files "demo") Scenarios.not_found
                    eq_refl eq_refl eq_refl)).
  - exact (proj1 (failed_read_keeps_state Scenarios.a_selected 1
                    (GET_status "demo") Scenarios.not_found
                    eq_refl eq_refl eq_refl)).
  - exact (proj1 (failed_read_keeps_state Scenarios.a_selected 2
                    (GET_file "demo" "a.py" 1) Scenarios.not_found
                    eq_refl eq_refl eq_refl)).
Defined.

(** X25: a read whose promise rejects, or a listing or status whose body
    does not parse, leaves the state of the page as it was. *)
Lemma broken_read_keeps_state (w : World) (n : nat) (r : Request)
      (s : Settlement) :
  nth_error (inflight w) n = Some r ->
  is_read r = true ->
  (s = Rejected \/ exists response, s = Resolved response /\ body response = None
                                    /\ (forall pid path v, r <> GET_file pid path v)) ->
  state (step w (Settle n s)) = state w.
Proof.
  intros Hnth Hread Hs. unfold step.
  destruct (commit_state w (handle w (Settle n s))) as (-> & _).
  simpl. rewrite Hnth.
  destruct Hs as [->|(response & -> & Hbody & Hr)];
    destruct r; try discriminate; unfold_page; simpl;
    rewrite ?Hbody; break_matches; try reflexivity.
  exfalso. eapply Hr. reflexivity.
Qed.

End ReadFailureFacts.

Section SaveFacts.
Import Js ProjectPage.

Lemma nth_error_last {A} (l : list A) (x : A) :
  nth_error (l ++ [x]) (length l) = Some x.
Proof. rewrite nth_error_app2, Nat.sub_diag by lia. reflexivity. Qed.

Lemma remove_nth_last {A} (l : list A) (x : A) :
  remove_nth (length l) (l ++ [x]) = l.
Proof. induction l as [|a l IH]; simpl; [reflexivity | now rewrite IH]. Qed.

Lemma uncaught_app (a b : list Output) :
  uncaught (a ++ b) = uncaught a ++ uncaught b.
Proof. apply flat_map_app. Qed.

(** [handleSave] with a project and a selected file. *)
Lemma handleSave_sends (w : World) (pid path content : string) :
  projectId w = Some pid -> truthy_string pid = true ->
  selectedFile (state w) = Some path -> truthy_string path = true ->
  handleSave content w
  = send (POST_file pid path content) (emit (Played playClick) w).
Proof.
  intros Hid Hpid Hsel Hpath. unfold handleSave.
  now rewrite Hid, Hsel, Hpid, Hpath.
Qed.

(** When the save resolves, whatever the response, the listing is asked
    for. *)
Lemma settle_save (w : World) (n : nat) (pid path content : string)
      (response : Response) :
  nth_error (inflight w) n = Some (POST_file pid path content) ->
  truthy_string pid = true ->
  step w (Settle n (Resolved response)) = send (GET_files pid) (settled n w).
Proof.
  intros Hnth Hpid. unfold step. simpl. rewrite Hnth. simpl.
  unfold top_level, bind, await, ret, perform, fetchFiles. rewrite Hpid.
  apply commit_quiet. repeat split.
Qed.

(** When a listing resolves with a success status and a listing in its
    body, that listing replaces the one before. *)
Lemma settle_listing (w : World) (n : nat) (pid : string)
      (entries : list FileEntry) :
  nth_error (inflight w) n = Some (GET_files pid) ->
  step w (Settle n (Resolved (Scenarios.listing_of entries)))
  = update (setFiles entries) (settled n w).
Proof.
  intros Hnth. unfold step. simpl. rewrite Hnth. simpl.
  apply commit_quiet. repeat split.
Qed.

(** No response to a save, to a review or to the chat of [handleFix]
    leaves an error uncaught.  The chat sent by the panel is left out:
    there [handleChat] throws to the panel, whose code is not here. *)
Lemma settle_write_caught (w : World) (n : nat) (r : Request)
      (response : Response) :
  nth_error (inflight w) n = Some r -> is_write r = true ->
  (forall pid message history,
     r <> POST_chat pid message history byChatPanel) ->
  uncaught (outbox (step w (Settle n (Resolved response))))
  = uncaught (outbox w).
Proof.
  intros Hnth Hwrite _. unfold step.
  destruct (commit_state w (handle w (Settle n (Resolved response))))
    as (_ & _ & ->).
  simpl. rewrite Hnth.
  destruct r; try discriminate; unfold_page; simpl; break_matches; simpl;
    rewrite ?uncaught_app, ?app_nil_r; reflexivity.
Qed.

(** What does hold of a save: [handleSave], called with a project and a
    selected file, sends the save; when the save gets a response, whatever
    its status, the listing is fetched again and nothing else changes.
    And whatever the response to a save, to a review or to the chat of
    [handleFix], no error is left uncaught when the request settles: the
    review and [handleFix] log what they catch, the save does not look at
    its response. *)
Lemma save_is_followed_by_refresh (w : World) (pid path content : string)
      (response : Response) :
  projectId w = Some pid -> truthy_string pid = true ->
  selectedFile (state w) = Some path -> truthy_string path = true ->
  let w1 := handleSave content w in
  let w2 := step w1 (Settle (length (inflight w)) (Resolved response)) in
  (inflight w1 = inflight w ++ [POST_file pid path content]
   /\ inflight w2 = inflight w ++ [GET_files pid]
   /\ state w2 = state w
   /\ uncaught (outbox w2) = uncaught (outbox w))
  /\ (forall w0 n r answer,
        nth_error (inflight w0) n = Some r -> is_write r = true ->
        (forall pid' message history,
           r <> POST_chat pid' message history byChatPanel) ->
        uncaught (outbox (step w0 (Settle n (Resolved answer))))
        = uncaught (outbox w0)).
Proof.
  intros Hid Hpid Hsel Hpath w1 w2. split; [|exact settle_write_caught].
  unfold w2, w1. rewrite (handleSave_sends w pid path content Hid Hpid Hsel Hpath).
  rewrite (settle_save _ _ pid path content response)
    by (assumption || apply nth_error_last).
  simpl. rewrite remove_nth_last, uncaught_app, app_nil_r. repeat split.
Qed.

(** The lemma on the page of [demo] with [b.py] selected, the server
    answering the save with a failure status. *)
Lemma save_is_followed_by_refresh_witness :
  inflight (step (handleSave "edited" Scenarios.b_selected)
              (Settle 3 (Resolved Scenarios.not_found)))
  = inflight Scenarios.b_selected ++ [GET_files "demo"]
  /\ uncaught (outbox (step (handleSave "edited" Scenarios.b_selected)
                         (Settle 3 (Resolved Scenarios.not_found))))
     = uncaught (outbox Scenarios.b_selected).
Proof.
  destruct (save_is_followed_by_refresh Scenarios.b_selected "demo" "b.py"
              "edited" Scenarios.not_found eq_refl eq_refl eq_refl eq_refl)
    as ((_ & Hrefresh & _ & Hcaught) & _).
  split; [exact Hrefresh | exact Hcaught].
Defined.

(** C7, at the input where the code departs from it.  On the page of
    [demo] with [b.py] shown, [handleSave] sends the save.  When the
    promise of that request rejects, the request is gone, no listing is
    asked for and nobody catches the error: an uncaught [TypeError] is all
    that comes out.  The same request answered with a failure status is
    followed by the listing fetch; and the same rejection of the review
    and of the chat of [handleFix], which await inside try and catch, is
    logged and leaves nothing uncaught. *)
Theorem rejected_save_is_not_contained :
  let sent := handleSave "edited" Scenarios.b_selected in
  inflight sent
  = inflight Scenarios.b_selected ++ [POST_file "demo" "b.py" "edited"]
  /\ inflight (step sent (Settle 3 Rejected)) = inflight Scenarios.b_selected
  /\ outbox (step sent (Settle 3 Rejected))
     = outbox sent ++ [Uncaught TypeError]
  /\ uncaught (outbox (step sent (Settle 3 Rejected))) = [TypeError]
  /\ inflight (step sent (Settle 3 (Resolved Scenarios.not_found)))
     = inflight Scenarios.b_selected ++ [GET_files "demo"]
  /\ nth_error (inflight PageNotions.busy) 5
     = Some (POST_review "demo" ["b.py"])
  /\ outbox (step PageNotions.busy (Settle 5 Rejected))
     = outbox PageNotions.busy ++ [ConsoleError TypeError]
  /\ outbox (step PageNotions.busy (Settle 4 Rejected))
     = outbox PageNotions.busy ++ [ConsoleError TypeError].
Proof. vm_compute. repeat split. Qed.

(** X24: when the promise of the save itself rejects (no response
    arrives), the listing is not fetched and the error goes uncaught:
    neither [handleSave] nor the [handleSave] of [Editor] catches it. *)
Lemma rejected_save (w : World) (n : nat) (pid path content : string) :
  nth_error (inflight w) n = Some (POST_file pid path content) ->
  step w (Settle n Rejected) = emit (Uncaught TypeError) (settled n w).
Proof.
  intros Hnth. unfold step. simpl. rewrite Hnth. simpl.
  apply commit_quiet. repeat split.
Qed.

(** C8: a click on Save, the settling of the save and the settling of the
    listing fetch that follows leave the buffer of the editor, the content
    and what the editor shows as they were, while the listing is replaced
    by the one that arrived. *)
Theorem save_keeps_buffer (w : World) (pid buffer : string)
        (response : Response) (entries : list FileEntry) :
  toolbar_shown w = true -> value w = Some buffer ->
  projectId w = Some pid -> truthy_string pid = true ->
  let k := length (inflight w) in
  let w1 := step w ClickSave in
  let w2 := step w1 (Settle k (Resolved response)) in
  let w3 := step w2 (Settle k (Resolved (Scenarios.listing_of entries))) in
  files (state w3) = entries
  /\ value w3 = Some buffer
  /\ fileContent (state w3) = fileContent (state w)
  /\ Editor_shows w3 = Editor_shows w.
Proof.
  intros Hshown Hbuffer Hid Hpid k w1 w2 w3. subst k.
  assert (Hsel : exists path, selectedFile (state w) = Some path
                              /\ truthy_string path = true).
  { unfold toolbar_shown in Hshown. apply andb_prop in Hshown.
    destruct Hshown as [_ Hsel]. destruct (selectedFile (state w)) as [path|];
      [eauto | discriminate]. }
  destruct Hsel as (path & Hsel & Hpath).
  assert (H1 : w1 = send (POST_file pid path buffer)
                      (emit (Played playClick) w)).
  { unfold w1. rewrite step_quiet; simpl; rewrite Hshown, Hbuffer;
      rewrite (handleSave_sends w pid path buffer Hid Hpid Hsel Hpath);
      [reflexivity | repeat split]. }
  assert (H2 : w2 = send (GET_files pid) (emit (Played playClick) w)).
  { unfold w2. rewrite H1.
    rewrite (settle_save _ _ pid path buffer response)
      by (assumption || apply nth_error_last).
    unfold settled, send. simpl. now rewrite remove_nth_last. }
  assert (H3 : w3 = update (setFiles entries) (emit (Played playClick) w)).
  { unfold w3. rewrite H2.
    rewrite (settle_listing _ _ pid entries) by apply nth_error_last.
    unfold settled, send, update. simpl. now rewrite remove_nth_last. }
  rewrite H3. unfold Editor_shows. simpl. auto.
Qed.

(** The theorem on the page of [demo] where [b.py] is shown and the user
    has typed: the save leaves the typed text in the buffer. *)
Lemma save_keeps_buffer_witness :
  value (run (step Scenarios.b_selected (Edit (Some "edited")))
             [ClickSave;
              Settle 3 (Resolved (Scenarios.found ""));
              Settle 3 (Resolved (Scenarios.listing_of
                                    [ {| path := "b.py"; kind := file |} ]))])
  = Some "edited".
Proof.
  exact (proj1 (proj2
    (save_keeps_buffer (step Scenarios.b_selected (Edit (Some "edited")))
       "demo" "edited" (Scenarios.found "")
       [ {| path := "b.py"; kind := file |} ]
       eq_refl eq_refl eq_refl eq_refl))).
Defined.

End SaveFacts.

Section RouteFacts.
Import Js ProjectPage.

(** A change of project leaves the selection, the version and the content
    alone: of the effects, those that depend on the project run. *)
Lemma step_route (w : World) (id : option string) :
  step w (RouteTo id) =
  effects false (negb (same (projectId w) id)) false (route id w).
Proof.
  unfold step, commit. simpl handle.
  replace (fileContent (state w)) with (fileContent (state (route id w)))
    by reflexivity.
  rewrite Editor_effect_same. simpl.
  now rewrite same_refl, Z.eqb_refl.
Qed.

(** C10: a change of the project id clears nothing.  The whole state of
    the page (log, listing, selection, content, steps, status, version and
    tab), the buffer of the editor and the requests in flight for the
    previous project stay; for a new, non-empty id the listing and the
    status are fetched, and the content of the selected path if there is
    one, and their responses are what replaces the old values. *)
Theorem route_keeps_state (w : World) (id : option string) :
  let w' := step w (RouteTo id) in
  state w' = state w
  /\ value w' = value w
  /\ outbox w' = outbox w
  /\ (exists sent, inflight w' = inflight w ++ sent)
  /\ (forall pid,
        id = Some pid -> truthy_string pid = true -> projectId w <> id ->
        inflight w' =
        inflight w ++ GET_files pid :: GET_status pid ::
          match selectedFile (state w) with
          | Some path =>
              if truthy_string path
              then [GET_file pid path (version (state w))]
              else []
          | None => []
          end).
Proof.
  intros w'. unfold w'. rewrite step_route.
  destruct (same_spec (projectId w) id) as [Hsame|Hnew]; simpl negb.
  - rewrite effects_idle. simpl. repeat split.
    + exists []. now rewrite app_nil_r.
    + intros pid _ _ Hdiff. contradiction.
  - unfold effects, fetchStatus, fetchFiles, fetchFileContent. simpl.
    repeat split; try (break_matches; reflexivity).
    + break_matches; eexists; rewrite <- ?app_assoc; simpl;
        try reflexivity; symmetry; apply app_nil_r.
    + intros pid -> Hpid _. rewrite Hpid.
      break_matches; simpl; rewrite <- ?app_assoc; reflexivity.
Qed.

(** The theorem on the page of [demo] with [b.py] shown, the route going
    to project [other]: the content of [b.py] of [demo] is still there,
    and so is the request for [a.py] of [demo]. *)
Lemma route_keeps_state_witness :
  state (step Scenarios.b_selected (RouteTo (Some "other")))
  = state Scenarios.b_selected
  /\ inflight (step Scenarios.b_selected (RouteTo (Some "other")))
     = [GET_files "demo"; GET_status "demo"; GET_file "demo" "a.py" 1;
        GET_files "other"; GET_status "other"; GET_file "other" "b.py" 1].
Proof.
  destruct (route_keeps_state Scenarios.b_selected (Some "other"))
    as (Hstate & _ & _ & _ & Hsent).
  split; [exact Hstate|].
  apply (Hsent "other" eq_refl eq_refl).
  intros Hid. vm_compute in Hid. discriminate.
Defined.

End RouteFacts.

Section FrameFacts.
Import Js ProjectPage.

Lemma effects_value (a b c : bool) (w : World) :
  value (effects a b c w) = value w.
Proof.
  unfold effects, fetchStatus, fetchFiles, fetchFileContent.
  destruct a, b, c; simpl; break_matches; reflexivity.
Qed.

(** X14: the buffer of the editor only changes when the user types, when
    the tab is switched, or when a content fetch settles: no other input,
    and in particular no part of a save, touches it or the content. *)
Lemma buffer_frame (w : World) (i : Input) :
  (forall nextValue, i <> Edit nextValue) ->
  (forall tab, i <> SwitchTab tab) ->
  (forall n s pid path v,
     i = Settle n s -> nth_error (inflight w) n <> Some (GET_file pid path v)) ->
  value (step w i) = value w
  /\ fileContent (state (step w i)) = fileContent (state w).
Proof.
  intros Hedit Htab Hfetch.
  assert (H : value (handle w i) = value w
              /\ fileContent (state (handle w i)) = fileContent (state w)).
  { destruct i;
      try (exfalso; now eapply Hedit); try (exfalso; now eapply Htab);
      try (unfold_page; simpl; break_matches; auto; fail).
    simpl. destruct (nth_error (inflight w) n) as [r|] eqn:Hnth; [|auto].
    destruct r;
      try (exfalso; eapply Hfetch; [reflexivity | exact Hnth]);
      unfold_page; simpl; break_matches; auto. }
  destruct H as [Hvalue Hcontent]. unfold step. split.
  - unfold commit. rewrite effects_value, <- Hcontent, Editor_effect_same.
    exact Hvalue.
  - destruct (commit_state w (handle w i)) as (-> & _). exact Hcontent.
Qed.

(** A frame leaves the log alone or pushes one event on it. *)
Lemma frame_logs (w : World) (data : payload) :
  logs (state (step w (Frame data))) = logs (state w)
  \/ exists event,
       logs (state (step w (Frame data))) = push_log (logs (state w)) event.
Proof.
  rewrite step_frame. unfold_page. simpl.
  break_matches; simpl; auto; right; eexists; reflexivity.
Qed.

(** X13: on every page that can be reached, whatever the inputs were and
    in whatever order they came, the log holds at most 200 events. *)
Lemma log_never_exceeds_200 (w : World) :
  reachable w -> length (logs (state w)) <= 200.
Proof.
  intros (id & inputs & ->).
  assert (Hmount : length (logs (state (mount id))) <= 200).
  { unfold mount, effects, fetchStatus, fetchFiles. simpl.
    break_matches; simpl; lia. }
  generalize dependent (mount id). clear id.
  induction inputs as [|i inputs IH]; intros w Hw; [exact Hw|].
  apply IH.
  assert (Hframe : (exists data, i = Frame data)
                   \/ forall data, i <> Frame data).
  { destruct i; try (right; intros; discriminate). left. eauto. }
  destruct Hframe as [[data ->]|Hother].
  - destruct (frame_logs w data) as [->|[event ->]]; [exact Hw|].
    unfold push_log. rewrite length_app, slice_last_length. cbn [length]. lia.
  - now rewrite logs_frame.
Qed.

End FrameFacts.

Section ChatFacts.
Import Js ProjectPage.

(** X23: a chat request answered with a failure status: [handleChat]
    throws [Failed to send message], the error reaches whoever awaits the
    call and nothing else happens: [handleFix] logs it, the chat panel
    receives it; the listing is not fetched. *)
Lemma failed_chat_reaches_its_caller (w : World) (n : nat)
      (pid message : string) (history : list Message) (caller : Caller)
      (response : Response) :
  nth_error (inflight w) n = Some (POST_chat pid message history caller) ->
  ok response = false ->
  step w (Settle n (Resolved response)) =
  emit match caller with
       | byHandleFix => ConsoleError (ErrorMessage "Failed to send message")
       | byChatPanel =>
           ChatReply (Throw (ErrorMessage "Failed to send message"))
       end
       (settled n w).
Proof.
  intros Hnth Hok. unfold step. simpl. rewrite Hnth.
  assert (Hk : top_level
                 (continuation (POST_chat pid message history caller)
                    (Resolved response)) (settled n w)
               = emit match caller with
                      | byHandleFix =>
                          ConsoleError (ErrorMessage "Failed to send message")
                      | byChatPanel =>
                          ChatReply
                            (Throw (ErrorMessage "Failed to send message"))
                      end (settled n w)).
  { unfold_page. simpl. rewrite Hok. destruct caller; reflexivity. }
  rewrite Hk. apply commit_quiet. repeat split.
Qed.

End ChatFacts.

Section GraphFacts.
Import Js DAGView.

(** Every step has its node, once, after the node of the CEO. *)
Lemma node_ids_Permutation (steps : list Step) :
  Permutation (node_ids steps) ("ceo-node" :: map id steps).
Proof.
  unfold node_ids. constructor. apply Permutation_map.
  unfold groupsArray, group_steps.
  now rewrite fold_add_step_Permutation.
Qed.

Lemma chain_ends (groups : list (list Step)) (a b : string) :
  In (a, b) (chain groups) ->
  In a (map id (concat groups)) /\ In b (map id (concat groups)).
Proof.
  induction groups as [|current rest IH]; simpl; [tauto|].
  destruct rest as [|next rest]; [simpl; tauto|].
  rewrite in_app_iff. intros [Hhere|Hlater].
  - unfold all_pairs in Hhere. apply in_flat_map in Hhere.
    destruct Hhere as (x & Hx & Hpair). apply in_map_iff in Hpair.
    destruct Hpair as (y & [= <- <-] & Hy).
    rewrite !map_app, !in_app_iff. split.
    + left. now apply in_map.
    + right. simpl. rewrite map_app, in_app_iff. left. now apply in_map.
  - destruct (IH Hlater) as [Ha Hb].
    rewrite map_app, !in_app_iff. tauto.
Qed.

(** Every edge ends at a step, and starts at the CEO node or at a step. *)
Lemma edges_join_steps (steps : list Step) (a b : string) :
  In (a, b) (edges steps) ->
  (a = "ceo-node" \/ In a (map id steps)) /\ In b (map id steps).
Proof.
  assert (Hperm : Permutation (map id (concat (groupsArray steps)))
                              (map id steps)).
  { apply Permutation_map. unfold groupsArray, group_steps.
    now rewrite fold_add_step_Permutation. }
  unfold edges. rewrite in_app_iff. intros [Hceo|Hchain].
  - destruct (groupsArray steps) as [|first rest] eqn:Hg; [contradiction|].
    apply in_map_iff in Hceo. destruct Hceo as (x & [= <- <-] & Hx).
    split; [now left|]. apply (Permutation_in _ Hperm).
    simpl. rewrite map_app, in_app_iff. left. now apply in_map.
  - destruct (chain_ends _ _ _ Hchain) as [Ha Hb].
    split; [right|]; now apply (Permutation_in _ Hperm).
Qed.

End GraphFacts.

(* ================================================================== *)
(** * Facts about paths and addresses                                  *)
(* ================================================================== *)

Section PathFacts.
Import Js Paths.

Lemma append_assoc (a b c : string) : ((a ++ b) ++ c = a ++ (b ++ c))%string.
Proof. induction a as [|ch a IH]; simpl; [reflexivity | now rewrite IH]. Qed.

Lemma append_nil_r (a : string) : (a ++ "")%string = a.
Proof. induction a as [|ch a IH]; simpl; [reflexivity | now rewrite IH]. Qed.

(** [endsWith] is the suffix relation. *)
Lemma endsWith_spec (s suffix : string) :
  endsWith s suffix = true <-> exists p, s = (p ++ suffix)%string.
Proof.
  induction s as [|c s IH]; cbn [endsWith].
  - rewrite orb_false_r. split.
    + intros H. apply String.eqb_eq in H. subst. now exists "".
    + intros [p Hp]. destruct p; simpl in Hp; [|discriminate].
      subst. reflexivity.
  - rewrite orb_true_iff, IH. split.
    + intros [H|[p Hp]].
      * apply String.eqb_eq in H. subst. now exists "".
      * exists (String c p). simpl. now rewrite Hp.
    + intros [p Hp]. destruct p as [|c' p]; simpl in Hp.
      * left. subst. apply String.eqb_refl.
      * right. injection Hp as _ Hp. eauto.
Qed.

Lemma endsWith_refl (s : string) : endsWith s s = true.
Proof. destruct s; cbn [endsWith]; now rewrite String.eqb_refl. Qed.

(** What ends a path still ends it under a directory. *)
Lemma endsWith_append (p s suffix : string) :
  endsWith s suffix = true -> endsWith (p ++ s) suffix = true.
Proof.
  intros H. induction p as [|c p IH]; [exact H|].
  cbn [append endsWith]. rewrite IH. apply orb_true_r.
Qed.

(** Of two suffixes of one string, one is a suffix of the other. *)
Lemma endsWith_both (s a b : string) :
  endsWith s a = true -> endsWith s b = true ->
  endsWith a b = true \/ endsWith b a = true.
Proof.
  induction s as [|c s IH]; intros Ha Hb.
  - cbn [endsWith] in Ha, Hb. rewrite orb_false_r in Ha, Hb.
    apply String.eqb_eq in Ha, Hb. subst. left. reflexivity.
  - destruct (string_dec (String c s) a) as [<-|Hna]; [left; exact Hb|].
    destruct (string_dec (String c s) b) as [<-|Hnb]; [right; exact Ha|].
    cbn [endsWith] in Ha, Hb.
    apply String.eqb_neq in Hna, Hnb. rewrite Hna in Ha. rewrite Hnb in Hb.
    auto.
Qed.

(** Two extensions of which neither ends the other never end the same
    path. *)
Lemma endsWith_apart (s a b : string) :
  endsWith a b = false -> endsWith b a = false ->
  endsWith s a = true -> endsWith s b = false.
Proof.
  intros Hab Hba Ha. destruct (endsWith s b) eqn:Hb; [|reflexivity].
  destruct (endsWith_both s a b Ha Hb); congruence.
Qed.

(** The extension decides the language, in whatever order it is tested. *)
Ltac other_extensions H :=
  repeat match goal with
  | |- context [endsWith ?s ?e] =>
      lazymatch type of H with
      | endsWith s e = true => fail
      | endsWith s ?a = true =>
          rewrite (endsWith_apart s a e eq_refl eq_refl H)
      end
  end.

Lemma language_by_extension (path : string) :
  (endsWith path ".py" = true -> languageFromPath path = "python")
  /\ (endsWith path ".ts" = true -> languageFromPath path = "typescript")
  /\ (endsWith path ".tsx" = true -> languageFromPath path = "typescript")
  /\ (endsWith path ".js" = true -> languageFromPath path = "javascript")
  /\ (endsWith path ".jsx" = true -> languageFromPath path = "javascript")
  /\ (endsWith path ".json" = true -> languageFromPath path = "json")
  /\ (endsWith path ".md" = true -> languageFromPath path = "markdown").
Proof.
  unfold languageFromPath.
  repeat split; intros H; other_extensions H; rewrite H; reflexivity.
Qed.

Lemma language_has_extension (path : string) :
  languageFromPath path <> "plaintext" ->
  exists extension,
    In extension [".py"; ".ts"; ".tsx"; ".js"; ".jsx"; ".json"; ".md"]
    /\ endsWith path extension = true.
Proof.
  unfold languageFromPath. intros H.
  destruct (endsWith path ".py") eqn:Hpy; [exists ".py"; simpl; tauto|].
  destruct (endsWith path ".ts") eqn:Hts; [exists ".ts"; simpl; tauto|].
  destruct (endsWith path ".tsx") eqn:Htsx; [exists ".tsx"; simpl; tauto|].
  destruct (endsWith path ".js") eqn:Hjs; [exists ".js"; simpl; tauto|].
  destruct (endsWith path ".jsx") eqn:Hjsx; [exists ".jsx"; simpl; tauto|].
  destruct (endsWith path ".json") eqn:Hjson; [exists ".json"; simpl; tauto|].
  destruct (endsWith path ".md") eqn:Hmd; [exists ".md"; simpl; tauto|].
  simpl in H. congruence.
Qed.

(** X1: the page edits a path as markdown exactly when [Editor] offers
    the preview for it: [languageFromPath] gives [markdown] if and only if
    the path ends in [.md]. *)
Theorem markdown_language_iff_md (path : string) :
  languageFromPath path = "markdown" <-> isMarkdown path = true.
Proof.
  unfold isMarkdown. split.
  - unfold languageFromPath. intros H.
    destruct (endsWith path ".py"); [discriminate|].
    destruct (endsWith path ".ts" || endsWith path ".tsx"); [discriminate|].
    destruct (endsWith path ".js" || endsWith path ".jsx"); [discriminate|].
    destruct (endsWith path ".json"); [discriminate|].
    destruct (endsWith path ".md"); [reflexivity | discriminate].
  - apply (language_by_extension path).
Qed.

(** X2: a recognised language does not depend on the directory: putting
    anything in front of a path whose language is not [plaintext] leaves
    the language as it is. *)
Theorem language_ignores_directory (directory path : string) :
  languageFromPath path <> "plaintext" ->
  languageFromPath (directory ++ path) = languageFromPath path.
Proof.
  intros H. destruct (language_has_extension path H) as (e & He & Hends).
  pose proof (endsWith_append directory path e Hends) as Hlong.
  pose proof (language_by_extension path) as Hp.
  pose proof (language_by_extension (directory ++ path)) as Hd.
  simpl in He.
  repeat (destruct He as [<-|He]; [intuition congruence|]).
  contradiction.
Qed.

(** The theorem at a TypeScript component in a directory. *)
Lemma language_ignores_directory_witness :
  languageFromPath ("src/components/" ++ "Editor.tsx")
  = languageFromPath "Editor.tsx".
Proof.
  apply (language_ignores_directory "src/components/" "Editor.tsx").
  discriminate.
Defined.

Lemma substring_all (s : string) : substring 0 (String.length s) s = s.
Proof. induction s as [|c s IH]; simpl; [reflexivity | now rewrite IH]. Qed.

Lemma prefix_append (pattern s : string) :
  prefix pattern s = true <-> exists rest, s = (pattern ++ rest)%string.
Proof.
  revert s. induction pattern as [|c pattern IH]; intros s; simpl.
  - split; [intros _; exists s; reflexivity|]. intros _. now destruct s.
  - destruct s as [|c' s]; simpl.
    + split; [discriminate | intros [rest H]; discriminate].
    + destruct (ascii_dec c c') as [<-|Hne].
      * rewrite IH. split; intros [rest H]; exists rest; congruence.
      * split; [discriminate|]. intros [rest H]. congruence.
Qed.

(** Without an occurrence of the pattern nothing is replaced. *)
Lemma replace_absent (pattern replacement s : string) :
  (forall a b, s <> (a ++ pattern ++ b)%string) ->
  replace pattern replacement s = s.
Proof.
  induction s as [|c s IH]; intros Habsent.
  - cbn [replace]. destruct (prefix pattern "") eqn:Hp; [|reflexivity].
    apply prefix_append in Hp. destruct Hp as [rest Hp].
    exfalso. apply (Habsent "" rest). exact Hp.
  - cbn [replace]. destruct (prefix pattern (String c s)) eqn:Hp.
    + apply prefix_append in Hp. destruct Hp as [rest Hp].
      exfalso. apply (Habsent "" rest). exact Hp.
    + f_equal. apply IH. intros a b ->.
      apply (Habsent (String c a) b). reflexivity.
Qed.

Lemma length_append (a b : string) :
  String.length (a ++ b) = String.length a + String.length b.
Proof. induction a as [|c a IH]; simpl; [reflexivity | now rewrite IH]. Qed.

Lemma substring_append (a b : string) (n : nat) :
  substring (String.length a) n (a ++ b) = substring 0 n b.
Proof. induction a as [|c a IH]; simpl; [reflexivity | exact IH]. Qed.

(** A pattern at the very start is what gets replaced. *)
Lemma replace_prefix (pattern replacement rest : string) :
  replace pattern replacement (pattern ++ rest) = (replacement ++ rest)%string.
Proof.
  assert (Hp : prefix pattern (pattern ++ rest) = true).
  { apply prefix_append. now exists rest. }
  assert (Hunfold : forall s,
    replace pattern replacement s =
    if prefix pattern s then
      (replacement
       ++ substring (String.length pattern)
            (String.length s - String.length pattern) s)%string
    else
      match s with
      | EmptyString => EmptyString
      | String c r => String c (replace pattern replacement r)
      end).
  { intros s. destruct s; reflexivity. }
  rewrite Hunfold, Hp, length_append, substring_append.
  replace (String.length pattern + String.length rest - String.length pattern)
    with (String.length rest) by lia.
  now rewrite substring_all.
Qed.

(** Of several occurrences of the pattern it is the first that gets
    replaced: the one before which no other starts. *)
Lemma replace_first (pattern replacement before after : string) :
  (forall a b,
     (before ++ pattern ++ after)%string = (a ++ pattern ++ b)%string ->
     String.length before <= String.length a) ->
  replace pattern replacement (before ++ pattern ++ after)
  = (before ++ replacement ++ after)%string.
Proof.
  induction before as [|c before IH]; intros Hfirst.
  - exact (replace_prefix pattern replacement after).
  - change ((String c before ++ pattern ++ after)%string)
      with (String c (before ++ pattern ++ after)).
    cbn [replace].
    destruct (prefix pattern (String c (before ++ pattern ++ after)))
      eqn:Hp.
    + apply prefix_append in Hp. destruct Hp as [rest Hp].
      specialize (Hfirst EmptyString rest Hp). simpl in Hfirst. lia.
    + change ((String c before ++ replacement ++ after)%string)
        with (String c (before ++ replacement ++ after)).
      f_equal. apply IH. intros a b Hab.
      specialize (Hfirst (String c a) b). simpl in Hfirst.
      rewrite Hab in Hfirst. specialize (Hfirst eq_refl). lia.
Qed.

(** X3: the address of the socket is the address of the API with its
    first [http] turned into [ws], wherever that first occurrence is, and
    nothing else changed: a base that starts with [http] has its scheme
    changed (so [https] gives [wss]) and keeps an [http] further on, a
    base whose first [http] is further on has that one changed, and a
    base that holds no [http] at all is used as it is. *)
Theorem socket_url_scheme (base projectId : string) :
  (forall before after,
     base = (before ++ "http" ++ after)%string ->
     (forall a b,
        base = (a ++ "http" ++ b)%string ->
        String.length before <= String.length a) ->
     socket_url (Some base) projectId
     = (before ++ "ws" ++ after ++ "/ws/projects/" ++ projectId)%string)
  /\ (base <> "" ->
      (forall a b, base <> (a ++ "http" ++ b)%string) ->
      socket_url (Some base) projectId
      = (base ++ "/ws/projects/" ++ projectId)%string).
Proof.
  unfold socket_url, WS_BASE, API_BASE, or_else. split.
  - intros before after Hbase Hfirst.
    assert (Hne : base <> "").
    { rewrite Hbase. destruct before; discriminate. }
    apply truthy_string_nonempty in Hne. rewrite Hne.
    rewrite Hbase in Hfirst |- *.
    rewrite (replace_first "http" "ws" before after Hfirst).
    now rewrite !append_assoc.
  - intros Hne Habsent.
    apply truthy_string_nonempty in Hne. rewrite Hne.
    now rewrite (replace_absent "http" "ws" base Habsent).
Qed.

(** The theorem at a secure address whose host holds [http] itself, and
    at an address whose only [http] is in its path. *)
Lemma socket_url_scheme_witness :
  socket_url (Some "https://httpbin.example") "demo"
  = "wss://httpbin.example/ws/projects/demo"
  /\ socket_url (Some "ftp://mirror/http-files") "demo"
     = "ftp://mirror/ws-files/ws/projects/demo".
Proof.
  split.
  - refine (proj1 (socket_url_scheme "https://httpbin.example" "demo")
              "" "s://httpbin.example" eq_refl _).
    intros a b _. apply Nat.le_0_l.
  - refine (proj1 (socket_url_scheme "ftp://mirror/http-files" "demo")
              "ftp://mirror/" "-files" eq_refl _).
    intros a b H.
    do 13 (destruct a as [|? a];
           [discriminate H | simpl in H; injection H as _ H]).
    simpl. lia.
Defined.

End PathFacts.

(* ================================================================== *)
(** * Facts about the layout and the edges of the graph                *)
(* ================================================================== *)

Section LayoutFacts.
Import Js DAGView Layout.
Local Open Scope Z_scope.

Lemma place_steps_ids (startX currentY : Z) (idx : nat) (g : list Step) :
  map node_id (place_steps startX currentY idx g) = map id g.
Proof.
  revert idx. induction g as [|s g IH]; intros idx; simpl;
    [reflexivity | now rewrite IH].
Qed.

Lemma place_groups_ids (currentY : Z) (groups : list (list Step)) :
  map node_id (place_groups currentY groups) = map id (concat groups).
Proof.
  revert currentY. induction groups as [|g groups IH]; intros currentY; simpl;
    [reflexivity|].
  now rewrite !map_app, place_steps_ids, IH.
Qed.

(** X4: every step has exactly one node, after the node of the CEO: the
    ids of the nodes are [ceo-node] followed by the ids of the steps,
    cohort by cohort, which is a rearrangement of the ids of the step
    list. *)
Theorem nodes_cover_steps (steps : list Step) :
  map node_id (nodes steps) = node_ids steps
  /\ Permutation (map node_id (nodes steps)) ("ceo-node" :: map id steps)
  /\ length (nodes steps) = S (length steps).
Proof.
  assert (Hids : map node_id (nodes steps) = node_ids steps).
  { unfold nodes, node_ids. simpl. now rewrite place_groups_ids. }
  assert (Hperm : Permutation (map node_id (nodes steps))
                              ("ceo-node" :: map id steps)).
  { rewrite Hids. unfold node_ids. constructor. apply Permutation_map.
    unfold groupsArray, group_steps. now rewrite fold_add_step_Permutation. }
  repeat split; [exact Hids | exact Hperm |].
  apply Permutation_length in Hperm.
  rewrite length_map in Hperm. simpl in Hperm. now rewrite length_map in Hperm.
Qed.

Lemma place_steps_In (startX currentY : Z) (idx : nat) (g : list Step)
      (n : Node) :
  In n (place_steps startX currentY idx g) <->
  exists j s,
    nth_error g j = Some s
    /\ n = {| node_id := id s;
              x := startX + Z.of_nat (idx + j) * 200;
              y := currentY; width := 150; height := 120 |}.
Proof.
  revert idx. induction g as [|s0 g IH]; intros idx; simpl.
  - split; [tauto|]. intros (j & s & H & _). now destruct j.
  - rewrite IH. split.
    + intros [<-|(j & s & Hj & ->)].
      * exists 0%nat, s0. split; [reflexivity|]. now rewrite Nat.add_0_r.
      * exists (S j), s. split; [exact Hj|].
        now replace (idx + S j)%nat with (S idx + j)%nat by lia.
    + intros (j & s & Hj & ->). destruct j as [|j]; simpl in Hj.
      * left. injection Hj as <-. now rewrite Nat.add_0_r.
      * right. exists j, s. split; [exact Hj|].
        now replace (idx + S j)%nat with (S idx + j)%nat by lia.
Qed.

Lemma start_of_row (n : nat) :
  centerX - Z.of_nat n * 200 / 2 + 100 = 350 - 100 * Z.of_nat n.
Proof.
  unfold centerX.
  replace (Z.of_nat n * 200) with (Z.of_nat n * 100 * 2) by lia.
  rewrite Z.div_mul by lia. lia.
Qed.

Lemma place_groups_In (currentY : Z) (groups : list (list Step)) (n : Node) :
  In n (place_groups currentY groups) <->
  exists i g j s,
    nth_error groups i = Some g /\ nth_error g j = Some s
    /\ n = {| node_id := id s;
              x := 350 - 100 * Z.of_nat (length g) + 200 * Z.of_nat j;
              y := currentY + 180 * Z.of_nat i;
              width := 150; height := 120 |}.
Proof.
  revert currentY. induction groups as [|g0 groups IH]; intros currentY;
    cbn [place_groups].
  - split; [simpl; tauto|]. intros (i & g & _ & _ & H & _). now destruct i.
  - rewrite in_app_iff, place_steps_In, IH, start_of_row. split.
    + intros [(j & s & Hj & ->)|(i & g & j & s & Hi & Hj & ->)].
      * exists 0%nat, g0, j, s. repeat split; try assumption.
        f_equal; lia.
      * exists (S i), g, j, s. repeat split; try assumption.
        unfold verticalGap. f_equal; lia.
    + intros (i & g & j & s & Hi & Hj & ->). destruct i as [|i]; simpl in Hi.
      * left. injection Hi as <-. exists j, s. split; [assumption|].
        f_equal; lia.
      * right. exists i, g, j, s. repeat split; try assumption.
        unfold verticalGap. f_equal; lia.
Qed.

(** X5: where the nodes are.  Besides the node of the CEO at (250, 0),
    the nodes are exactly these: the step in place [j] of the cohort in
    place [i], a cohort of [n] steps, has its node at
    x = 350 - 100 n + 200 j and y = 220 + 180 i, with width 150 and height
    120.  So the cohorts are rows 180 apart and the steps of a row are
    200 apart. *)
Theorem nodes_placement (steps : list Step) (n : Node) :
  In n (nodes steps) <->
  n = ceo_node
  \/ exists i g j s,
       nth_error (groupsArray steps) i = Some g /\ nth_error g j = Some s
       /\ n = node_at i j (length g) s.
Proof.
  unfold nodes, node_at. simpl. rewrite place_groups_In. unfold startY.
  split; (intros [H|H]; [left; now rewrite H | right; exact H]).
Qed.

End LayoutFacts.

Section OverlapFacts.
Import Js DAGView Layout.
Local Open Scope Z_scope.

(** The positions of a row are symmetric about x = 250, the position of
    the CEO. *)
Lemma row_symmetry (i j j' n : nat) (s s' : Step) :
  (j + j' = n - 1)%nat -> (0 < n)%nat ->
  x (node_at i j n s) + x (node_at i j' n s') = 2 * x ceo_node.
Proof. intros H Hn. unfold node_at, ceo_node. cbn [x]. lia. Qed.

Lemma ForallOrdPairs_app {A} (R : A -> A -> Prop) (l1 l2 : list A) :
  ForallOrdPairs R l1 -> ForallOrdPairs R l2 ->
  (forall a b, In a l1 -> In b l2 -> R a b) ->
  ForallOrdPairs R (l1 ++ l2).
Proof.
  intros H1 H2 H12. induction H1 as [|a l Ha H1 IH]; simpl; [exact H2|].
  constructor.
  - apply Forall_app. split; [exact Ha|].
    apply Forall_forall. intros b Hb. apply H12; simpl; auto.
  - apply IH. intros a' b Ha' Hb. apply H12; simpl; auto.
Qed.

Lemma ForallOrdPairs_nth {A} (R : A -> A -> Prop) (l : list A) :
  ForallOrdPairs R l ->
  forall p q a b,
    (p < q)%nat -> nth_error l p = Some a -> nth_error l q = Some b -> R a b.
Proof.
  intros H. induction H as [|a0 l Ha0 H IH]; intros p q a b Hpq Hp Hq.
  - now destruct p.
  - destruct q as [|q]; [lia|]. simpl in Hq. destruct p as [|p]; simpl in Hp.
    + injection Hp as <-. rewrite Forall_forall in Ha0.
      apply Ha0. eapply nth_error_In. exact Hq.
    + apply (IH p q); [lia | assumption | assumption].
Qed.

(** The steps of a row stand side by side. *)
Lemma place_steps_apart (startX currentY : Z) (idx : nat) (g : list Step) :
  ForallOrdPairs apart (place_steps startX currentY idx g).
Proof.
  revert idx. induction g as [|s g IH]; intros idx; simpl; constructor.
  - apply Forall_forall. intros b Hb. apply place_steps_In in Hb.
    destruct Hb as (j & s' & _ & ->).
    unfold apart, overlap. cbn [x y width height]. lia.
  - apply IH.
Qed.

(** The rows stand one below the other. *)
Lemma place_groups_apart (currentY : Z) (groups : list (list Step)) :
  ForallOrdPairs apart (place_groups currentY groups).
Proof.
  revert currentY. induction groups as [|g groups IH]; intros currentY;
    cbn [place_groups]; [constructor|].
  apply ForallOrdPairs_app; [apply place_steps_apart | apply IH|].
  intros a b Ha Hb. apply place_steps_In in Ha. apply place_groups_In in Hb.
  destruct Ha as (j & s & _ & ->). destruct Hb as (i' & g' & j' & s' & _ & _ & ->).
  unfold apart, overlap, verticalGap. cbn [x y width height]. lia.
Qed.

Lemma overlap_sym (a b : Node) : overlap a b -> overlap b a.
Proof. unfold overlap. tauto. Qed.

(** X6: no two nodes of the graph overlap, however many steps and cohorts
    there are: the rectangles of any two nodes at different places of the
    node list, the node of the CEO included, have no area in common. *)
Theorem nodes_do_not_overlap (steps : list Step) (p q : nat) (a b : Node) :
  p <> q ->
  nth_error (nodes steps) p = Some a ->
  nth_error (nodes steps) q = Some b ->
  ~ overlap a b.
Proof.
  assert (Hall : ForallOrdPairs apart (nodes steps)).
  { unfold nodes. constructor; [|apply place_groups_apart].
    apply Forall_forall. intros n Hn. apply place_groups_In in Hn.
    destruct Hn as (i & g & j & s & _ & _ & ->).
    unfold apart, overlap, startY, ceo_node. cbn [x y width height]. lia. }
  intros Hpq Hp Hq.
  destruct (Nat.lt_total p q) as [Hlt|[Heq|Hgt]]; [|contradiction|].
  - exact (ForallOrdPairs_nth apart _ Hall p q a b Hlt Hp Hq).
  - intros Hover. apply overlap_sym in Hover. revert Hover.
    exact (ForallOrdPairs_nth apart _ Hall q p b a Hgt Hq Hp).
Qed.

(** The theorem at the two build steps of the example, which share a
    row. *)
Lemma nodes_do_not_overlap_witness :
  nth_error (nodes Scenarios.pipeline) 2
  = Some (node_at 1 0 2 Scenarios.api)
  /\ nth_error (nodes Scenarios.pipeline) 3
     = Some (node_at 1 1 2 Scenarios.ui)
  /\ ~ overlap (node_at 1 0 2 Scenarios.api) (node_at 1 1 2 Scenarios.ui).
Proof.
  split; [reflexivity|]. split; [reflexivity|].
  apply (nodes_do_not_overlap Scenarios.pipeline 2 3);
    [discriminate | reflexivity | reflexivity].
Defined.

End OverlapFacts.

Section EdgeFacts.
Import Js DAGView.

Lemma all_pairs_In (from to : list Step) (a b : string) :
  In (a, b) (all_pairs from to) <-> In a (map id from) /\ In b (map id to).
Proof.
  unfold all_pairs. rewrite in_flat_map. split.
  - intros (s & Hs & Hpair). apply in_map_iff in Hpair.
    destruct Hpair as (t & [= <- <-] & Ht). split; now apply in_map.
  - intros [Ha Hb]. apply in_map_iff in Ha, Hb.
    destruct Ha as (s & <- & Hs). destruct Hb as (t & <- & Ht).
    exists s. split; [exact Hs|]. apply in_map_iff. now exists t.
Qed.

Lemma chain_In (groups : list (list Step)) (a b : string) :
  In (a, b) (chain groups) <->
  exists i g g',
    nth_error groups i = Some g /\ nth_error groups (S i) = Some g'
    /\ In a (map id g) /\ In b (map id g').
Proof.
  induction groups as [|current rest IH].
  - simpl. split; [tauto|]. intros (i & g & g' & H & _). now destruct i.
  - destruct rest as [|next rest].
    + simpl. split; [tauto|]. intros (i & g & g' & _ & H & _).
      destruct i; discriminate.
    + change (chain (current :: next :: rest))
        with (all_pairs current next ++ chain (next :: rest)).
      rewrite in_app_iff, all_pairs_In, IH. split.
      * intros [[Ha Hb]|(i & g & g' & Hi & Hi' & Ha & Hb)].
        -- now exists 0, current, next.
        -- now exists (S i), g, g'.
      * intros (i & g & g' & Hi & Hi' & Ha & Hb). destruct i as [|i].
        -- left. simpl in Hi, Hi'. injection Hi as <-. injection Hi' as <-.
           tauto.
        -- right. now exists i, g, g'.
Qed.

(** X7: the graph is layered.  Its edges are exactly these: one from the
    CEO to every step of the first cohort, and one from every step of a
    cohort to every step of the cohort that follows it. *)
Theorem edges_are_layered (steps : list Step) (a b : string) :
  In (a, b) (edges steps) <->
  (a = "ceo-node"
   /\ exists first, nth_error (groupsArray steps) 0 = Some first
                    /\ In b (map id first))
  \/ exists i g g',
       nth_error (groupsArray steps) i = Some g
       /\ nth_error (groupsArray steps) (S i) = Some g'
       /\ In a (map id g) /\ In b (map id g').
Proof.
  unfold edges. rewrite in_app_iff, chain_In.
  apply or_iff_compat_r.
  destruct (groupsArray steps) as [|first rest]; simpl.
  - split; [tauto|]. intros (_ & first & H & _). discriminate.
  - rewrite in_map_iff. split.
    + intros (s & [= <- <-] & Hs). split; [reflexivity|].
      exists first. split; [reflexivity|]. now apply in_map.
    + intros (-> & first' & [= <-] & Hb). apply in_map_iff in Hb.
      destruct Hb as (s & <- & Hs). now exists s.
Qed.

Lemma first_appearances_NoDup_id (l : list string) :
  NoDup l -> first_appearances l = l.
Proof.
  induction l as [|k l IH]; intros H; simpl; [reflexivity|].
  inversion H as [|? ? Hk Hl]; subst. rewrite (IH Hl). f_equal.
  apply forallb_filter_id. apply forallb_forall. intros k' Hk'.
  destruct (String.eqb_spec k' k) as [->|_]; [contradiction | reflexivity].
Qed.

Lemma members_of_alone (steps : list Step) :
  NoDup (map group_of steps) ->
  map (members_of group_of steps) (map group_of steps)
  = map (fun step => [step]) steps.
Proof.
  intros H. rewrite map_map. apply map_ext_in. intros s Hs.
  unfold members_of. clear - H Hs.
  induction steps as [|s0 steps IH]; [contradiction|].
  simpl in H. inversion H as [|? ? Hk Hl]; subst. simpl.
  destruct Hs as [->|Hs].
  - rewrite String.eqb_refl. f_equal.
    apply (members_of_absent group_of steps (group_of s) Hk).
  - destruct (String.eqb_spec (group_of s0) (group_of s)) as [E|_].
    + exfalso. apply Hk. rewrite E. now apply in_map.
    + now apply IH.
Qed.

Lemma chain_singletons (steps : list Step) :
  chain (map (fun step => [step]) steps)
  = combine (map id steps) (tl (map id steps)).
Proof.
  induction steps as [|s steps IH]; [reflexivity|].
  destruct steps as [|s' steps]; [reflexivity|].
  change (chain (map (fun step => [step]) (s :: s' :: steps)))
    with ((id s, id s') :: chain (map (fun step => [step]) (s' :: steps))).
  rewrite IH. reflexivity.
Qed.

(** X8: a pipeline without parallel steps is drawn as a chain.  When the
    keys of the steps are all different, every step is a cohort of its
    own, in list order, and the edges go from the CEO to the first step
    and from each step to the next. *)
Theorem chain_without_parallel_groups (steps : list Step) :
  NoDup (map group_of steps) ->
  groupsArray steps = map (fun step => [step]) steps
  /\ edges steps = combine ("ceo-node" :: map id steps) (map id steps).
Proof.
  intros H.
  assert (Hgroups : groupsArray steps = map (fun step => [step]) steps).
  { unfold groupsArray. rewrite group_steps_cohorts. unfold cohorts, values.
    rewrite map_map. simpl.
    rewrite (first_appearances_NoDup_id _ H). now apply members_of_alone. }
  split; [exact Hgroups|].
  unfold edges. rewrite Hgroups, chain_singletons.
  destruct steps as [|s steps]; reflexivity.
Qed.

(** The theorem at three steps of which none has a usable group. *)
Lemma chain_without_parallel_groups_witness :
  edges [Scenarios.plan; Scenarios.lint; Scenarios.test]
  = [("ceo-node", "plan"); ("plan", "lint"); ("lint", "test")].
Proof.
  refine (proj2 (chain_without_parallel_groups
                   [Scenarios.plan; Scenarios.lint; Scenarios.test] _)).
  repeat constructor; simpl; intuition discriminate.
Defined.

End EdgeFacts.

(* ================================================================== *)
(** * Facts about the Editor component                                 *)
(* ================================================================== *)

Section EditorFacts.
Import Js Paths EditorComponent.

Lemma save_enabled_idle (m : Mounted) :
  save_enabled m = true -> saving (cells m) = false.
Proof.
  unfold save_enabled, render.
  destruct (path (props m)) as [p|]; [|discriminate].
  destruct (truthy_string p); [|discriminate]. simpl.
  now destruct (saving (cells m)).
Qed.

Lemma review_enabled_idle (m : Mounted) :
  review_enabled m = true -> reviewing (cells m) = false.
Proof.
  unfold review_enabled, render.
  destruct (path (props m)) as [p|]; [|discriminate].
  destruct (truthy_string p); [|discriminate]. simpl.
  destruct (onDeepReview (props m)); [|discriminate].
  now destruct (reviewing (cells m)).
Qed.

Lemma step_flags_match (m : Mounted) (ev : Event) :
  flags_match m -> flags_match (step m ev).
Proof.
  unfold flags_match. intros [Hsave Hreview]. destruct ev; cbn [step].
  - destruct (content (props m) =? content p); simpl; auto.
  - destruct (textarea_shown m); simpl; auto.
  - destruct (toggle_shown m); simpl; auto.
  - destruct (save_enabled m) eqn:Hen; [|auto].
    apply save_enabled_idle in Hen. rewrite Hen in Hsave. simpl.
    rewrite length_app, Hsave. simpl. auto.
  - destruct (fix_enabled m); simpl; auto.
  - destruct (review_enabled m) eqn:Hen; [|auto].
    apply review_enabled_idle in Hen. rewrite Hen in Hreview. simpl.
    rewrite Hreview. auto.
  - destruct (saves_pending m) as [|v rest] eqn:Hp; [rewrite Hp; auto|].
    simpl in *. destruct (saving (cells m)); [|discriminate].
    split; [lia | exact Hreview].
  - destruct (reviews_pending m) as [|rest] eqn:Hp; [rewrite Hp; auto|].
    simpl in *. destruct (reviewing (cells m)); [|discriminate].
    split; [exact Hsave | lia].
Qed.

(** X9: the saves of one editor never overlap, and neither do its
    reviews.  After any events since it was mounted, at most one call of
    [onSave] is pending, and the Save button is disabled ([saving]) exactly
    while one is: it comes back when the call ends, whether fulfilled or
    rejected.  The same holds of [onDeepReview] and [reviewing]. *)
Theorem saves_never_overlap (p : Props) (events : list Event) :
  let m := run (mount p) events in
  length (saves_pending m) <= 1
  /\ (saving (cells m) = true <-> length (saves_pending m) = 1)
  /\ reviews_pending m <= 1
  /\ (reviewing (cells m) = true <-> reviews_pending m = 1).
Proof.
  intros m.
  assert (H : flags_match m).
  { unfold m, run. generalize (mount p) (conj eq_refl eq_refl : flags_match (mount p)).
    induction events as [|ev events IH]; intros m0 H0; simpl; [exact H0|].
    apply IH. now apply step_flags_match. }
  destruct H as [Hsave Hreview]. rewrite Hsave, Hreview.
  destruct (saving (cells m)), (reviewing (cells m)); repeat split;
    try lia; try congruence.
Qed.

(** X10: the preview is only ever on screen for a path that the page
    edits as markdown; for every other path the text area is shown, in
    the language of the path, whatever the preview flag is. *)
Theorem preview_only_for_markdown (m : Mounted) (selectedFile : option string)
        (fileContent : string) (toolbar : Toolbar) (body : Body) :
  props m = page_props selectedFile fileContent ->
  render m = Panel toolbar body ->
  exists path,
    selectedFile = Some path
    /\ ((body = Preview (value (cells m))
         /\ languageFromPath path = "markdown")
        \/ body = TextArea (languageFromPath path) (value (cells m))).
Proof.
  intros Hprops. unfold render. rewrite Hprops. simpl.
  destruct selectedFile as [path|]; [|discriminate].
  destruct (truthy_string path) eqn:Hpath; [|discriminate].
  intros [= _ <-]. exists path. split; [reflexivity|].
  destruct (isMarkdown path) eqn:Hmd; simpl.
  - destruct (showPreview (cells m)); [left | right; reflexivity].
    split; [reflexivity|].
    now apply (language_by_extension path).
  - right. reflexivity.
Qed.

End EditorFacts.

Section EditorWitnesses.
Import Js Paths EditorComponent.

(** The theorem at a markdown file with the preview on. *)
Lemma preview_only_for_markdown_witness :
  exists path,
    Some "README.md" = Some path
    /\ ((Preview "# AstroMind" = Preview (value (cells PageNotions.previewing))
         /\ languageFromPath path = "markdown")
        \/ Preview "# AstroMind"
           = TextArea (languageFromPath path)
               (value (cells PageNotions.previewing))).
Proof.
  exact (preview_only_for_markdown PageNotions.previewing (Some "README.md")
           "# AstroMind"
           {| shown_path := "README.md"; preview_toggle := true;
              review_button := Some false; fix_button := true;
              save_disabled := false |}
           (Preview "# AstroMind") eq_refl eq_refl).
Defined.

End EditorWitnesses.

(* ================================================================== *)
(** * More facts about the project page                                *)
(* ================================================================== *)

Section FreshnessFacts.
Import Js ProjectPage PageNotions.

(** X11: on every page that can be reached, the ref holds the selection
    of the latest render; the effect holds a socket (one it created and
    did not close in its cleanup) exactly when there is a project id; and
    the handler of the socket it holds closes over the current project
    and the current version, so that no frame is ever handled by the
    closure of an earlier render.  Whether the connection is still alive
    is not part of this: the page never learns of a dropped socket. *)
Theorem ref_and_socket_are_current (w : World) :
  reachable w ->
  selectedFileRef w = selectedFile (state w)
  /\ (ws w = None <-> truthy (projectId w) = false)
  /\ (forall socket,
        ws w = Some socket ->
        projectId w = Some (ws_projectId socket)
        /\ ws_version socket = version (state w)).
Proof.
  intros Hreach. destruct (reachable_coherent w Hreach) as [Href Hws].
  split; [exact Href|]. rewrite Hws.
  destruct (projectId w) as [pid|]; simpl.
  - destruct (truthy_string pid).
    + split; [split; discriminate|]. intros socket [= <-]. auto.
    + split; [tauto|]. intros socket H. discriminate.
  - split; [tauto|]. intros socket H. discriminate.
Qed.

(** The theorem on the page of [demo] after the version was changed. *)
Lemma ref_and_socket_are_current_witness :
  selectedFileRef (run Scenarios.b_selected [ChangeVersion 2])
  = selectedFile (state (run Scenarios.b_selected [ChangeVersion 2])).
Proof.
  refine (proj1 (ref_and_socket_are_current
                   (run Scenarios.b_selected [ChangeVersion 2]) _)).
  exists (Some "demo").
  exists [SelectFile (Some "a.py"); SelectFile (Some "b.py");
          Settle 3 (Resolved (Scenarios.found "text of b.py"));
          ChangeVersion 2].
  unfold Scenarios.b_selected, Scenarios.a_selected, Scenarios.opened, run.
  cbn [fold_left]. reflexivity.
Defined.

Lemma Forall_remove_nth {A} (P : A -> Prop) (n : nat) (l : list A) :
  Forall P l -> Forall P (remove_nth n l).
Proof.
  intros H. revert n. induction H as [|a l Ha H IH]; intros n.
  - now destruct n.
  - destruct n; simpl; [exact H | constructor; auto].
Qed.

Ltac requests_ok :=
  repeat (apply Forall_app; split);
  try assumption;
  try (apply Forall_remove_nth; assumption);
  repeat constructor; try assumption;
  try (unfold has_project; simpl;
       repeat match goal with
       | H : _ && _ = true |- _ => apply andb_prop in H; destruct H
       end;
       assumption).

Lemma effects_has_project (a b c : bool) (w : World) :
  Forall has_project (inflight w) ->
  Forall has_project (inflight (effects a b c w)).
Proof.
  intros H. unfold effects, fetchStatus, fetchFiles, fetchFileContent.
  destruct a, b, c; simpl; break_matches; requests_ok.
Qed.

Lemma handle_has_project (w : World) (i : Input) :
  Forall has_project (inflight w) ->
  Forall has_project (inflight (handle w i)).
Proof.
  intros H. destruct i; unfold_page; simpl; break_matches; requests_ok.
Qed.

Lemma step_has_project (w : World) (i : Input) :
  Forall has_project (inflight w) ->
  Forall has_project (inflight (step w i)).
Proof.
  intros H. unfold step, commit. apply effects_has_project.
  destruct (Editor_effect_state (fileContent (state w)) (handle w i))
    as (_ & _ & _ & _ & -> & _).
  now apply handle_has_project.
Qed.

(** X12: no request is ever sent without a project: on every page that
    can be reached, every request in flight carries a non-empty project
    id. *)
Theorem requests_carry_a_project (w : World) :
  reachable w -> Forall has_project (inflight w).
Proof.
  intros (id & inputs & ->).
  assert (Hmount : Forall has_project (inflight (mount id))).
  { unfold mount. apply effects_has_project. constructor. }
  unfold run. generalize dependent (mount id). clear id.
  induction inputs as [|i inputs IH]; intros w Hw; simpl; [exact Hw|].
  apply IH. now apply step_has_project.
Qed.

Lemma busy_reachable : reachable busy.
Proof.
  exists (Some "demo").
  exists [SelectFile (Some "a.py"); SelectFile (Some "b.py");
          Settle 3 (Resolved (Scenarios.found "text of b.py"));
          ClickSave; ClickFix; ClickDeepReview].
  unfold busy, Scenarios.b_selected, Scenarios.a_selected, Scenarios.opened, run.
  cbn [fold_left]. reflexivity.
Qed.

(** The theorem on the busy page of [demo]. *)
Lemma requests_carry_a_project_witness : Forall has_project (inflight busy).
Proof. exact (requests_carry_a_project busy busy_reachable). Defined.

End FreshnessFacts.

Section SelectionFacts.
Import Js ProjectPage PageNotions.

(** Setting a cell to the value it holds is no change. *)
Lemma setSelectedFile_same (w : World) :
  update (setSelectedFile (selectedFile (state w))) w = w.
Proof. destruct w as [pid [] ref v s fl out]. reflexivity. Qed.

Lemma setVersion_same (w : World) :
  update (setVersion (version (state w))) w = w.
Proof. destruct w as [pid [] ref v s fl out]. reflexivity. Qed.

(** X15: selecting the path that is selected already fetches nothing:
    the page is as it was, but for the sound of the click. *)
Theorem reselecting_changes_nothing (w : World) :
  step w (SelectFile (selectedFile (state w))) = emit (Played playHover) w.
Proof.
  rewrite step_select, same_refl, setSelectedFile_same. reflexivity.
Qed.

(** X16: selecting another, non-empty path on a page with a project sends
    exactly one request, the content of that path at the current version,
    and puts the path in the ref; the content shown stays until the
    response arrives, and the socket stays open. *)
Theorem selecting_fetches_once (w : World) (pid path : string) :
  projectId w = Some pid -> truthy_string pid = true ->
  truthy_string path = true -> selectedFile (state w) <> Some path ->
  let w' := step w (SelectFile (Some path)) in
  inflight w' = inflight w ++ [GET_file pid path (version (state w))]
  /\ selectedFile (state w') = Some path
  /\ selectedFileRef w' = Some path
  /\ fileContent (state w') = fileContent (state w)
  /\ ws w' = ws w.
Proof.
  intros Hid Hpid Hpath Hnew w'. unfold w'. rewrite step_select.
  destruct (same_spec (selectedFile (state w)) (Some path)) as [E|_];
    [contradiction|].
  unfold effects, fetchFileContent. simpl. rewrite Hid, Hpath, Hpid. simpl.
  repeat split.
Qed.

(** The theorem on the page of [demo] with [b.py] shown, at [c.py]. *)
Lemma selecting_fetches_once_witness :
  inflight (step Scenarios.b_selected (SelectFile (Some "c.py")))
  = inflight Scenarios.b_selected ++ [GET_file "demo" "c.py" 1].
Proof.
  refine (proj1 (selecting_fetches_once Scenarios.b_selected "demo" "c.py"
                   eq_refl eq_refl eq_refl _)).
  intros H. vm_compute in H. discriminate.
Defined.

(** A change of version changes neither the project nor the selection. *)
Lemma step_version (w : World) (v : Z) :
  step w (ChangeVersion v) =
  effects false false (negb (version (state w) =? v)%Z)
    (update (setVersion v) w).
Proof.
  unfold step, commit. simpl handle.
  replace (fileContent (state w))
    with (fileContent (state (update (setVersion v) w))) by reflexivity.
  rewrite Editor_effect_same. simpl.
  now rewrite !same_refl.
Qed.

(** X17: time travel.  Choosing the version that is current changes
    nothing at all.  Choosing another one, on a page with a project, sets
    it, opens a new socket whose handler closes over it, and fetches the
    selected path (if any) at the new version, and nothing else; the
    content of the old version is shown until the response arrives. *)
Theorem version_change_refetches (w : World) (pid : string) (v : Z) :
  projectId w = Some pid -> truthy_string pid = true ->
  (v = version (state w) -> step w (ChangeVersion v) = w)
  /\ (v <> version (state w) ->
      let w' := step w (ChangeVersion v) in
      version (state w') = v
      /\ ws w' = Some {| ws_projectId := pid; ws_version := v |}
      /\ fileContent (state w') = fileContent (state w)
      /\ inflight w' =
         inflight w ++
           match selectedFile (state w) with
           | Some path =>
               if truthy_string path then [GET_file pid path v] else []
           | None => []
           end).
Proof.
  intros Hid Hpid. rewrite step_version. split.
  - intros ->. now rewrite Z.eqb_refl, setVersion_same.
  - intros Hnew.
    destruct (Z.eqb_spec (version (state w)) v) as [E|_]; [congruence|].
    unfold effects, fetchFileContent. simpl. rewrite Hid, Hpid.
    destruct (selectedFile (state w)) as [path|]; simpl.
    + destruct (truthy_string path); simpl; repeat split.
      now rewrite app_nil_r.
    + repeat split. now rewrite app_nil_r.
Qed.

(** The theorem on the page of [demo] with [b.py] shown, at version 2. *)
Lemma version_change_refetches_witness :
  inflight (step Scenarios.b_selected (ChangeVersion 2))
  = inflight Scenarios.b_selected ++ [GET_file "demo" "b.py" 2].
Proof.
  destruct (version_change_refetches Scenarios.b_selected "demo" 2
              eq_refl eq_refl) as [_ Hnew].
  refine (proj2 (proj2 (proj2 (Hnew _)))).
  intros H. vm_compute in H. discriminate.
Defined.

(** X18: a look at the execution graph costs the unsaved edits: after a
    switch to the graph tab and back, the buffer of the editor is the
    loaded content, whatever had been typed, and nothing was sent. *)
Theorem tab_round_trip_discards_edits (w : World) :
  let w' := run w [SwitchTab dag; SwitchTab editor] in
  value w' = Some (fileContent (state w))
  /\ fileContent (state w') = fileContent (state w)
  /\ inflight w' = inflight w.
Proof.
  simpl.
  assert (H1 : step w (SwitchTab dag)
               = setValue None
                   (emit (Played playHover) (update (setActiveTab dag) w))).
  { apply step_quiet. repeat split. }
  rewrite H1.
  rewrite step_quiet; [|repeat split]. simpl. repeat split.
Qed.

End SelectionFacts.

Section ActionFacts.
Import Js ProjectPage PageNotions.

(** X19: Fix It asks about the loaded content, not about the buffer.  On
    a page with a project and a shown file, a click sends one chat request
    whose message is built from the selected path and the loaded content
    (what was typed since is not in it); when the loaded content is empty
    the click does nothing at all, whatever the buffer holds. *)
Theorem fix_uses_loaded_content (w : World) (pid path : string) :
  toolbar_shown w = true ->
  projectId w = Some pid -> truthy_string pid = true ->
  selectedFile (state w) = Some path ->
  (fileContent (state w) = "" -> step w ClickFix = w)
  /\ (fileContent (state w) <> "" ->
      step w ClickFix
      = send (fix_request pid path (fileContent (state w)))
          (emit (Played playClick) w)).
Proof.
  intros Hshown Hid Hpid Hsel.
  assert (Hpath : truthy_string path = true).
  { unfold toolbar_shown in Hshown. rewrite Hsel in Hshown.
    now apply andb_prop in Hshown. }
  split; intros Hcontent.
  - rewrite step_quiet; simpl; rewrite Hshown; unfold handleFix;
      rewrite Hsel, Hcontent, Hpath; [reflexivity | repeat split].
  - apply truthy_string_nonempty in Hcontent.
    rewrite step_quiet; simpl; rewrite Hshown; unfold handleFix, handleChat;
      rewrite Hsel, Hcontent, Hpath; simpl; rewrite Hid, Hpid;
      [reflexivity | repeat split].
Qed.

(** The theorem on the page of [demo] with [b.py] shown, after the user
    typed: the request quotes the text that was loaded. *)
Lemma fix_uses_loaded_content_witness :
  step typed ClickFix
  = send (fix_request "demo" "b.py" (fileContent (state typed)))
      (emit (Played playClick) typed).
Proof.
  assert (Hshown : toolbar_shown typed = true) by (vm_compute; reflexivity).
  assert (Hid : projectId typed = Some "demo") by (vm_compute; reflexivity).
  assert (Hsel : selectedFile (state typed) = Some "b.py")
    by (vm_compute; reflexivity).
  apply (fix_uses_loaded_content typed "demo" "b.py" Hshown Hid eq_refl Hsel).
  intros H. vm_compute in H. discriminate.
Defined.

(** X20: without a project, Fix It sends nothing and still plays the
    sound of success: [handleChat] returns the text of an error instead
    of throwing, so [handleFix] takes it for an answer. *)
Theorem fix_without_project (w : World) :
  toolbar_shown w = true ->
  truthy_string (fileContent (state w)) = true ->
  truthy (projectId w) = false ->
  step w ClickFix
  = emit (Played playSuccess) (emit (Played playClick) w).
Proof.
  intros Hshown Hcontent Hid.
  assert (Hsel : exists path, selectedFile (state w) = Some path
                              /\ truthy_string path = true).
  { unfold toolbar_shown in Hshown. apply andb_prop in Hshown.
    destruct Hshown as [_ Hsel]. destruct (selectedFile (state w)) as [path|];
      [eauto | discriminate]. }
  destruct Hsel as (path & Hsel & Hpath).
  rewrite step_quiet; simpl; rewrite Hshown; unfold handleFix, handleChat;
    rewrite Hsel, Hcontent, Hpath; simpl;
    destruct (projectId w) as [pid|]; simpl in Hid; rewrite ?Hid;
    try reflexivity; repeat split.
Qed.

(** The theorem on the page that lost its project. *)
Lemma fix_without_project_witness :
  step orphaned ClickFix
  = emit (Played playSuccess) (emit (Played playClick) orphaned).
Proof.
  apply (fix_without_project orphaned); vm_compute; reflexivity.
Defined.

(** X21: a review never touches the page.  However the request settles,
    the state, the buffer and the other requests stay and no error is
    left uncaught; and a response with a failure status is dropped in
    silence: no alert, no sound, no log. *)
Theorem review_leaves_page_alone (w : World) (n : nat) (pid : string)
        (paths : list string) (s : Settlement) :
  nth_error (inflight w) n = Some (POST_review pid paths) ->
  let w' := step w (Settle n s) in
  state w' = state w
  /\ value w' = value w
  /\ inflight w' = remove_nth n (inflight w)
  /\ uncaught (outbox w') = uncaught (outbox w)
  /\ (forall response,
        s = Resolved response -> ok response = false ->
        outbox w' = outbox w).
Proof.
  intros Hnth w'.
  assert (Hquiet : quiet w (handle w (Settle n s))).
  { simpl. rewrite Hnth. unfold_page. simpl.
    break_matches; repeat split. }
  unfold w'. rewrite (step_quiet w _ Hquiet). simpl. rewrite Hnth.
  unfold_page. simpl. repeat split;
    try (break_matches; simpl; rewrite ?uncaught_app, ?app_nil_r; reflexivity).
  intros response -> Hok. unfold_page. simpl. rewrite Hok. reflexivity.
Qed.

(** The theorem on the busy page of [demo], the review failing. *)
Lemma review_leaves_page_alone_witness :
  state (step busy (Settle 5 (Resolved Scenarios.not_found))) = state busy
  /\ outbox (step busy (Settle 5 (Resolved Scenarios.not_found)))
     = outbox busy.
Proof.
  assert (Hnth : nth_error (inflight busy) 5 = Some (POST_review "demo" ["b.py"]))
    by (vm_compute; reflexivity).
  destruct (review_leaves_page_alone busy 5 "demo" ["b.py"]
              (Resolved Scenarios.not_found) Hnth)
    as (Hstate & _ & _ & _ & Hsilent).
  split; [exact Hstate|]. exact (Hsilent Scenarios.not_found eq_refl eq_refl).
Defined.

(** X22: an answer of the chat is followed by a refresh of the listing.
    When a chat request resolves with a success status and an answer, the
    listing of its project is fetched, and the answer goes to the caller:
    to the panel, or to [handleFix], which plays the sound of success. *)
Theorem chat_answer_refreshes_listing (w : World) (n : nat)
        (pid message : string) (history : list Message) (caller : Caller)
        (response : Response) (answer : string) :
  nth_error (inflight w) n = Some (POST_chat pid message history caller) ->
  truthy_string pid = true ->
  ok response = true -> body response = Some (ChatAnswer answer) ->
  step w (Settle n (Resolved response))
  = emit (answer_for caller answer) (send (GET_files pid) (settled n w)).
Proof.
  intros Hnth Hpid Hok Hbody.
  assert (Hk : handle w (Settle n (Resolved response))
               = emit (answer_for caller answer)
                   (send (GET_files pid) (settled n w))).
  { simpl. rewrite Hnth. unfold_page. simpl. rewrite Hok, Hbody, Hpid.
    destruct caller; reflexivity. }
  rewrite step_quiet; rewrite Hk; [reflexivity | repeat split].
Qed.

(** The theorem on the busy page of [demo], the chat of Fix It being
    answered. *)
Lemma chat_answer_refreshes_listing_witness :
  step busy (Settle 4 (Resolved answered))
  = emit (Played playSuccess) (send (GET_files "demo") (settled 4 busy)).
Proof.
  assert (Hnth : nth_error (inflight busy) 4
                 = Some (fix_request "demo" "b.py" "text of b.py"))
    by (vm_compute; reflexivity).
  exact (chat_answer_refreshes_listing busy 4 "demo" _ _ byHandleFix
           answered "fixed" Hnth eq_refl eq_refl eq_refl).
Defined.

(** X26: the listing is replaced wholesale and the last response wins:
    of two listings that arrive one after the other, whatever request
    each answers, the second is the listing of the page. *)
Theorem last_listing_wins (w : World) (n m : nat) (pid pid' : string)
        (first second : list FileEntry) :
  nth_error (inflight w) n = Some (GET_files pid) ->
  let w1 := step w (Settle n (Resolved (Scenarios.listing_of first))) in
  nth_error (inflight w1) m = Some (GET_files pid') ->
  let w2 := step w1 (Settle m (Resolved (Scenarios.listing_of second))) in
  files (state w1) = first /\ files (state w2) = second.
Proof.
  intros Hn w1 Hm w2. unfold w2.
  rewrite (settle_listing w1 m pid' second Hm). unfold w1.
  rewrite (settle_listing w n pid first Hn). split; reflexivity.
Qed.

(** The theorem on the page of [demo] after a refresh was asked for
    twice: the answer to the second request arrives first, and the answer
    to the first one, arriving last, is what stays. *)
Lemma last_listing_wins_witness :
  files (state (step (step refreshing
                        (Settle 3 (Resolved (Scenarios.listing_of
                                     [ {| path := "new.py"; kind := file |} ]))))
                  (Settle 0 (Resolved (Scenarios.listing_of [])))))
  = [].
Proof.
  assert (H3 : nth_error (inflight refreshing) 3 = Some (GET_files "demo"))
    by (vm_compute; reflexivity).
  refine (proj2 (last_listing_wins refreshing 3 0 "demo" "demo"
                   [ {| path := "new.py"; kind := file |} ] [] H3 _)).
  vm_compute. reflexivity.
Defined.

End ActionFacts.

Section NoProjectFacts.
Import Js ProjectPage PageNotions.

Lemma effects_no_project (a b c : bool) (w : World) :
  truthy (projectId w) = false ->
  inflight (effects a b c w) = inflight w.
Proof.
  intros H. unfold effects, fetchStatus, fetchFiles, fetchFileContent.
  destruct (projectId w) as [pid|]; simpl in H; rewrite ?H;
    destruct a, b, c; simpl; break_matches; reflexivity.
Qed.

Lemma handleChat_no_project (caller : Caller) (message : string)
      (history : list Message) (w : World) :
  truthy (projectId w) = false ->
  inflight (handleChat caller message history w) = inflight w
  /\ projectId (handleChat caller message history w) = projectId w.
Proof.
  intros H. unfold handleChat.
  destruct (projectId w) as [pid|] eqn:Hp; simpl in H; rewrite ?H;
    destruct caller; split; reflexivity || exact Hp.
Qed.

Lemma handle_local_no_project (w : World) (i : Input) :
  truthy (projectId w) = false -> ws w = None -> is_local i = true ->
  inflight (handle w i) = inflight w /\ projectId (handle w i) = projectId w.
Proof.
  intros H Hws Hlocal.
  assert (Hsave : forall c, handleSave c w = w).
  { intros c. unfold handleSave.
    destruct (projectId w) as [pid|]; [|reflexivity]. simpl in H.
    rewrite H. simpl. now destruct (selectedFile (state w)). }
  assert (Hreview : handleDeepReview w = w).
  { unfold handleDeepReview.
    destruct (projectId w) as [pid|]; [|reflexivity]. simpl in H.
    rewrite H. simpl. now destruct (selectedFile (state w)). }
  assert (Hfiles : fetchFiles (projectId w) w = w).
  { unfold fetchFiles. destruct (projectId w) as [pid|]; [|reflexivity].
    simpl in H. now rewrite H. }
  destruct i; try discriminate; simpl; rewrite ?Hws, ?Hfiles; auto.
  - destruct tab, (value w); auto.
  - destruct (toolbar_shown w); auto.
  - destruct (toolbar_shown w); [|auto].
    destruct (value w); [rewrite Hsave|]; auto.
  - destruct (toolbar_shown w); [|auto]. unfold handleFix.
    destruct (selectedFile (state w)) as [path|]; [|auto].
    destruct (truthy_string path && truthy_string (fileContent (state w)));
      [|auto].
    apply (handleChat_no_project byHandleFix _ _ (emit (Played playClick) w)).
    exact H.
  - destruct (toolbar_shown w); [rewrite Hreview|]; auto.
  - destruct (Tab_same (activeTab (state w)) editor); [|auto].
    now apply handleChat_no_project.
Qed.

(** X27: a page without a project sends nothing.  On a page that can be
    reached and has no project id, no user action and no frame sends a
    request: only a change of route, or the settling of a request of an
    earlier project, can. *)
Theorem no_project_no_requests (w : World) (i : Input) :
  reachable w -> truthy (projectId w) = false -> is_local i = true ->
  inflight (step w i) = inflight w.
Proof.
  intros Hreach Hid Hlocal.
  destruct (reachable_coherent w Hreach) as [_ Hws].
  assert (Hnone : ws w = None).
  { rewrite Hws. destruct (projectId w) as [pid|]; [|reflexivity].
    simpl in Hid. now rewrite Hid. }
  destruct (handle_local_no_project w i Hid Hnone Hlocal) as [Hsent Hsame].
  unfold step, commit.
  destruct (Editor_effect_state (fileContent (state w)) (handle w i))
    as (_ & Hp & _ & _ & Hfl & _).
  rewrite effects_no_project; [congruence|]. now rewrite Hp, Hsame.
Qed.

Lemma orphaned_reachable : reachable orphaned.
Proof.
  exists (Some "demo").
  exists [SelectFile (Some "a.py"); SelectFile (Some "b.py");
          Settle 3 (Resolved (Scenarios.found "text of b.py"));
          RouteTo None].
  unfold orphaned, Scenarios.b_selected, Scenarios.a_selected,
    Scenarios.opened, run.
  cbn [fold_left]. reflexivity.
Qed.

(** The theorem on the page that lost its project, at a click on Save. *)
Lemma no_project_no_requests_witness :
  inflight (step orphaned ClickSave) = inflight orphaned.
Proof.
  apply (no_project_no_requests orphaned ClickSave orphaned_reachable);
    vm_compute; reflexivity.
Defined.

End NoProjectFacts.

Section MoreWitnesses.
Import Js ProjectPage PageNotions.

(** X13 at the page of [demo] after 250 events. *)
Lemma log_never_exceeds_200_witness :
  length (logs (state (run (mount (Some "demo"))
                           (map frame_of (Scenarios.burst 250))))) <= 200.
Proof.
  apply log_never_exceeds_200.
  exists (Some "demo"), (map frame_of (Scenarios.burst 250)). reflexivity.
Defined.

(** X14 at the page where the user typed, at a refresh of the listing. *)
Lemma buffer_frame_witness :
  value (step typed Refresh) = value typed
  /\ fileContent (state (step typed Refresh)) = fileContent (state typed).
Proof.
  apply (buffer_frame typed Refresh); intros; discriminate.
Defined.

(** X23 at the busy page of [demo], the chat of Fix It failing. *)
Lemma failed_chat_reaches_its_caller_witness :
  step busy (Settle 4 (Resolved Scenarios.not_found))
  = emit (ConsoleError (ErrorMessage "Failed to send message"))
      (settled 4 busy).
Proof.
  assert (Hnth : nth_error (inflight busy) 4
                 = Some (fix_request "demo" "b.py" "text of b.py"))
    by (vm_compute; reflexivity).
  exact (failed_chat_reaches_its_caller busy 4 "demo" _ _ byHandleFix
           Scenarios.not_found Hnth eq_refl).
Defined.

(** X24 at the busy page of [demo]. *)
Lemma rejected_save_witness :
  step busy (Settle 3 Rejected) = emit (Uncaught TypeError) (settled 3 busy).
Proof.
  assert (Hnth : nth_error (inflight busy) 3
                 = Some (POST_file "demo" "b.py" "text of b.py"))
    by (vm_compute; reflexivity).
  exact (rejected_save busy 3 "demo" "b.py" "text of b.py" Hnth).
Defined.

(** X25 at the busy page of [demo], the listing being rejected. *)
Lemma broken_read_keeps_state_witness :
  state (step busy (Settle 0 Rejected)) = state busy.
Proof.
  assert (Hnth : nth_error (inflight busy) 0 = Some (GET_files "demo"))
    by (vm_compute; reflexivity).
  exact (broken_read_keeps_state busy 0 (GET_files "demo") Rejected Hnth
           eq_refl (or_introl eq_refl)).
Defined.

End MoreWitnesses.
